(** * Umbra Builder: the tag, dependency and line model of
    [docs/s/js-max/builder/index.js], embedded in Rocq.

    The builder reads a script annotated with [UTAGDEF] and [UTAGSET]
    comments, builds a registry of tags, attaches tags to lines and emits the
    lines selected by a set of tag names.  The first part follows the classes
    [Tag], [LineTag], [Line] and [Script] of the JavaScript source, method by
    method, with [addLoadEvent] and the handler of the compile button; the
    comment above a definition names what it was translated from.
    Objects that the source mutates in place (the registry, the lines, the
    [output] array of [dependencies], the console) are passed in and handed
    back.  The two libraries the source calls, terser and prettier, and the
    global [get] that fetches a URL are not part of the file: the transforms
    are parameters of [compile], and the outcome of a fetch is the label of a
    step of [loadExternal].

    The second part holds the notions the statements use and the example
    scripts, the third the properties. *)

From Stdlib Require Import Ascii.
From stdpp Require Import base option list strings relations.
From Stdlib Require Import ZArith Lia.

Local Open Scope Z_scope.
Local Open Scope nat_scope.

(** ** JavaScript values used by the builder *)

(** A value that is either a string or [undefined] (an array read past the
    end, a [Tag] name taken from such a read).  On these values the loose
    [==], the strict [===] of [switch] and the SameValueZero of
    [Array.prototype.includes] all coincide with equality of options. *)
Abbreviation jsval := (option string) (only parsing).

(** What a template literal [`${v}`] prints for such a value. *)
Definition js_str (v : jsval) : string :=
  match v with
  | Some s => s
  | None => "undefined"
  end.

Module JsString.

(** Characters are read as UTF-16 code units below 256. *)
Definition is_space (c : ascii) : bool := bool_decide (c = " "%char).

Definition is_newline (c : ascii) : bool :=
  bool_decide (c = "010"%char) || bool_decide (c = "013"%char).

(** The code units below 256 that [String.prototype.trim] strips: tab, line
    feed, vertical tab, form feed, carriage return, space and the no-break
    space. *)
Definition is_white (c : ascii) : bool :=
  bool_decide (c = "009"%char) || bool_decide (c = "010"%char)
  || bool_decide (c = "011"%char) || bool_decide (c = "012"%char)
  || bool_decide (c = "013"%char) || bool_decide (c = " "%char)
  || bool_decide (c = "160"%char).

(** [s.split(/[sep]+/)]: the pieces between maximal runs of separators;
    a string that starts or ends with a separator yields an empty first or
    last piece, and the empty string yields one empty piece.  [in_run]
    says that the previous character was a separator. *)
Fixpoint split_runs (sep : ascii → bool) (in_run : bool) (s : string)
    : list string :=
  match s with
  | EmptyString => [EmptyString]
  | String c rest =>
      if sep c then
        if in_run then split_runs sep true rest
        else EmptyString :: split_runs sep true rest
      else
        match split_runs sep false rest with
        | w :: ws => String c w :: ws
        | [] => [String c EmptyString]
        end
  end.

Definition split (sep : ascii → bool) (s : string) : list string :=
  split_runs sep false s.

Fixpoint trimStart (s : string) : string :=
  match s with
  | EmptyString => EmptyString
  | String c rest => if is_white c then trimStart rest else s
  end.

Fixpoint trimEnd (s : string) : string :=
  match s with
  | EmptyString => EmptyString
  | String c rest =>
      match trimEnd rest with
      | EmptyString => if is_white c then EmptyString else String c EmptyString
      | r => String c r
      end
  end.

Definition trim (s : string) : string := trimEnd (trimStart s).

(** [s.startsWith(p)] *)
Definition startsWith (p s : string) : bool := String.prefix p s.

(** [s.substring(n)] for [n] within the string. *)
Fixpoint substring_from (n : nat) (s : string) : string :=
  match n, s with
  | 0, _ => s
  | S n', String _ rest => substring_from n' rest
  | S _, EmptyString => EmptyString
  end.

(** [a.join(sep)] on an array of strings. *)
Fixpoint join (sep : string) (a : list string) : string :=
  match a with
  | [] => ""
  | [w] => w
  | w :: ws => w +:+ sep +:+ join sep ws
  end.

(** A string is truthy when it is not empty. *)
Definition truthy (s : string) : bool :=
  match s with
  | EmptyString => false
  | _ => true
  end.

End JsString.

(** A double quote, and a string between double quotes. *)
Definition dquote : string := String "034"%char EmptyString.
Definition quoted (s : string) : string := dquote +:+ s +:+ dquote.

(** The line feed that ends every emitted line. *)
Definition newline : string := String "010"%char EmptyString.

(** [a.includes(x)] on an array of strings-or-undefined. *)
Definition includes (a : list jsval) (x : jsval) : bool := bool_decide (x ∈ a).

(** ** The console *)

Inductive Level : Type := LevelLog | LevelWarn | LevelError.

Definition Console : Type := list (Level * string).

(** ** [addLoadEvent] (source lines 105-116)

    A handler changes the page, of some type [Page]; [None] is a thrown
    exception.  The argument the browser passes is left out: the wrapper
    passes none on, and the handler of this file does not read it.  The
    global [onload] holds a handler or a value that is not a function. *)

Section LoadEvent.

Variable Page : Type.

(** [onload] after [addLoadEvent(event)]. *)
Definition addLoadEvent (onload : option (Page → option Page))
    (event : Page → option Page) : option (Page → option Page) :=
  match onload with
  | None => Some event
  | Some old => Some (λ page, page' ← old page; event page')
  end.

(** The load of the page: [onload] is called when it is a function. *)
Definition fire (onload : option (Page → option Page)) (page : Page)
    : option Page :=
  match onload with
  | None => Some page
  | Some handler => handler page
  end.

End LoadEvent.

(** ** Data model: [Tag], [LineTag], [Line] (source lines 119-190) *)

Module Tag.

(** A [Tag] object.  Tags live in [script.tags] and nowhere else, so a
    reference to a tag is its position in that array: two references are
    the same object exactly when the positions are equal. *)
Record t : Type := mk {
  name : jsval;
  description : string;
  size : Z;
  requiredTagNames : list jsval;
  link : string
}.

Abbreviation Ref := nat (only parsing).

(** [new Tag(name, script)] *)
Definition new (n : jsval) : t :=
  {| name := n; description := ""; size := 0%Z;
     requiredTagNames := []; link := "" |}.

(** [tags.find((tag) => tag.name == n)]: the first tag of that name, as a
    reference. *)
Definition find (registry : list t) (n : jsval) : option Ref :=
  fst <$> list_find (λ tg, name tg = n) registry.

(** [ref.name] for a reference into the registry. *)
Definition nameOf (registry : list t) (r : Ref) : jsval :=
  match registry !! r with
  | Some tg => name tg
  | None => None
  end.

(** [`${ref}`]: a template literal prints a tag through [toString()],
    which returns its name. *)
Definition toString (registry : list t) (r : Ref) : string :=
  js_str (nameOf registry r).

(** [ref.requiredTagNames] *)
Definition requiredOf (registry : list t) (r : Ref) : list jsval :=
  match registry !! r with
  | Some tg => requiredTagNames tg
  | None => []
  end.

(** *** [dependencies] (source lines 129-163)

    The [output] array is shared by the whole chain of recursive calls:
    every call pushes to the array it was given and hands the same array
    back, so it is threaded as state, together with the console.  [fuel]
    bounds the depth of the recursion; [dependencies_total] below shows
    that the bound used by [dependencies] is never reached. *)
Abbreviation DepState := (list nat * Console)%type (only parsing).

Section Dependencies.

(** [tag.script.tags]: every tag points to the one script that owns it. *)
Variable registry : list t.

(** [const requiredTag = tag.script.tags.find(tag => tag.name == "REQUIRED")] *)
Definition universal : option Ref := find registry (Some "REQUIRED").

(** The [for (const requiredTagName of addingTag.requiredTagNames)] loop;
    [recurse] is [this.dependencies(true, requiredTag, output)]. *)
Fixpoint requireAll (recurse : Ref → DepState → option DepState)
    (addingTag : Ref) (names : list jsval) (st : DepState)
    : option DepState :=
  match names with
  | [] => Some st
  | requiredTagName :: rest =>
      match find registry requiredTagName with
      | None =>
          requireAll recurse addingTag rest
            (st.1, st.2 ++ [(LevelWarn,
               "Error getting required tag " +:+ quoted (js_str requiredTagName)
               +:+ " for tag " +:+ quoted (toString registry addingTag)
               +:+ ".")])
      | Some requiredTag =>
          st' ← recurse requiredTag st;
          requireAll recurse addingTag rest st'
      end
  end.

(** The [while (toAdd.length > 0)] loop.  Nothing is pushed to [toAdd]
    inside the loop, so it runs once for each element it starts with. *)
Fixpoint drain (recurse : Ref → DepState → option DepState)
    (toAdd : list Ref) (st : DepState) : option DepState :=
  match toAdd with
  | [] => Some st
  | addingTag :: rest =>
      if bool_decide (addingTag ∈ st.1) then drain recurse rest st
      else
        st' ← requireAll recurse addingTag (requiredOf registry addingTag)
                (st.1 ++ [addingTag], st.2);
        drain recurse rest st'
  end.

(** The body of [dependencies] up to the [includeSelf] test. *)
Fixpoint collect (fuel : nat) (tag : Ref) (st : DepState)
    : option DepState :=
  match fuel with
  | 0 => None
  | S fuel' =>
      let toAdd := tag :: option_list universal in
      drain (collect fuel') toAdd st
  end.

(** [tag.dependencies(includeSelf)], called with the default [output = []]:
    the tags in the order they were pushed, and what was written to the
    console. *)
Definition dependencies (includeSelf : bool) (tag : Ref)
    : option (list Ref * Console) :=
  st ← collect (S (length registry)) tag ([], []);
  Some (if includeSelf then st.1
        else filter (λ outputTag, outputTag ≠ tag) st.1,
        st.2).

End Dependencies.

End Tag.

(** The value read from [LineTag.Mode[mode]]: the numbers stored under
    [AND] and [OR], [undefined] for an absent key, and for a key inherited
    from [Object.prototype] the inherited member, which is an object or a
    function. *)
Inductive ModeValue : Type :=
  | ModeNum (n : Z)
  | ModeUndefined
  | ModeInherited (key : string).

Module LineTag.

Record t : Type := mk {
  tag : Tag.Ref;
  mode : ModeValue
}.

Definition object_prototype_keys : list string :=
  [ "constructor"; "hasOwnProperty"; "isPrototypeOf"; "propertyIsEnumerable";
    "toLocaleString"; "toString"; "valueOf"; "__proto__";
    "__defineGetter__"; "__defineSetter__"; "__lookupGetter__";
    "__lookupSetter__" ].

(** [LineTag.Mode[key]] with [Mode = { AND: 0, OR: 1 }]; an [undefined]
    key is the property name ["undefined"]. *)
Definition Mode (key : jsval) : ModeValue :=
  let k := js_str key in
  if bool_decide (k = "AND") then ModeNum 0
  else if bool_decide (k = "OR") then ModeNum 1
  else if bool_decide (k ∈ object_prototype_keys) then ModeInherited k
  else ModeUndefined.

(** [m == LineTag.Mode["AND"]], that is [m == 0]: [undefined] is not
    loosely equal to a number, and an inherited member converts to a
    string that is not a number. *)
Definition is_AND (m : ModeValue) : bool :=
  match m with
  | ModeNum n => bool_decide (n = 0%Z)
  | _ => false
  end.

End LineTag.

Module Line.

Record t : Type := mk {
  code : string;
  comment : string;
  tags : list LineTag.t
}.

(** [new Line(code, comment)] *)
Definition new (c k : string) : t :=
  {| code := c; comment := k; tags := [] |}.

End Line.


(** ** [Script] (source lines 192-421) *)

Module Script.

Record t : Type := mk {
  lines : list Line.t;
  tags : list Tag.t
}.

(** *** The constructor (source lines 193-231) *)

(** The variables of the loop over the words of one line. *)
Record WordState : Type := mkWordState {
  ws_code : string;
  ws_comment : string;
  inComment : bool;
  inMultilineComment : bool
}.

(** One iteration of [for (let word of line.split(/ +/))]. *)
Definition word_step (st : WordState) (word : string) : WordState :=
  let word := JsString.trim word in
  let '(word, inC, inM) :=
    if JsString.startsWith "//" word then
      (JsString.substring_from 2 word, true, inMultilineComment st)
    else if JsString.startsWith "/*" word then
      (JsString.substring_from 2 word, inComment st, true)
    else if JsString.startsWith "*/" word then
      (JsString.substring_from 2 word, inComment st, false)
    else (word, inComment st, inMultilineComment st) in
  if bool_decide (String.length word ≤ 0) then
    mkWordState (ws_code st) (ws_comment st) inC inM
  else if inC || inM then
    mkWordState (ws_code st) (ws_comment st +:+ word +:+ " ") inC inM
  else
    mkWordState (ws_code st +:+ word +:+ " ") (ws_comment st) inC inM.

(** One iteration of [for (let line of script.split(/[\r\n]+/))]: the
    lines so far and [inMultilineComment]. *)
Definition line_step (st : list Line.t * bool) (line : string)
    : list Line.t * bool :=
  let line := JsString.trim line in
  let w := foldl word_step (mkWordState "" "" false st.2)
             (JsString.split JsString.is_space line) in
  (st.1 ++ [Line.new (ws_code w) (ws_comment w)], inMultilineComment w).

(** [new Script(script)] *)
Definition new (script : string) : t :=
  {| lines := (foldl line_step ([], false)
                 (JsString.split JsString.is_newline script)).1;
     tags := [] |}.

(** *** [getTags] (source lines 233-277) *)

Definition set_description (d : string) (tg : Tag.t) : Tag.t :=
  Tag.mk (Tag.name tg) d (Tag.size tg) (Tag.requiredTagNames tg) (Tag.link tg).

Definition push_required (n : jsval) (tg : Tag.t) : Tag.t :=
  Tag.mk (Tag.name tg) (Tag.description tg) (Tag.size tg)
    (Tag.requiredTagNames tg ++ [n]) (Tag.link tg).

Definition set_link (l : string) (tg : Tag.t) : Tag.t :=
  Tag.mk (Tag.name tg) (Tag.description tg) (Tag.size tg)
    (Tag.requiredTagNames tg) l.

Definition set_size (z : Z) (tg : Tag.t) : Tag.t :=
  Tag.mk (Tag.name tg) (Tag.description tg) z (Tag.requiredTagNames tg)
    (Tag.link tg).

(** "Find or create tag": the registry afterwards and the tag's reference. *)
Definition findOrCreate (registry : list Tag.t) (tagName : jsval)
    : list Tag.t * Tag.Ref :=
  match Tag.find registry tagName with
  | Some tag => (registry, tag)
  | None => (registry ++ [Tag.new tagName], length registry)
  end.

(** One iteration of [for (const line of this.lines)] in [getTags]: the
    registry and the console before and after. *)
Definition getTags_step (st : list Tag.t * Console) (line : Line.t)
    : list Tag.t * Console :=
  let comment := JsString.split JsString.is_space (Line.comment line) in
  let operator := comment !! 0 in
  let property := comment !! 1 in
  let tagName := comment !! 2 in
  let data := JsString.trim (JsString.join " " (drop 3 comment)) in
  if bool_decide (operator ≠ Some "UTAGDEF") then st
  else
    let '(registry, tag) := findOrCreate st.1 tagName in
    if bool_decide (property = Some "DESC") then
      (alter (set_description data) tag registry, st.2)
    else if bool_decide (property = Some "REQU") then
      match Tag.find registry (Some data) with
      | None =>
          (registry,
           st.2 ++ [(LevelWarn,
              Tag.toString registry tag +:+ " is unable to require tag "
              +:+ quoted data +:+ ".")])
      | Some requiredTag =>
          (alter (push_required (Tag.nameOf registry requiredTag)) tag registry,
           st.2)
      end
    else if bool_decide (property = Some "LINK") then
      (alter (set_link data) tag registry, st.2)
    else if bool_decide (property = Some "SIZE") then
      (registry,
       st.2 ++ [(LevelLog,
          "Skipping deprecated property " +:+ quoted (js_str property) +:+ ".")])
    else
      (registry,
       st.2 ++ [(LevelWarn,
          "Skipping unknown property " +:+ quoted (js_str property) +:+ ".")]).

(** [script.getTags()]: the script with its registry filled, and the
    console output. *)
Definition getTags (s : t) : t * Console :=
  let r := foldl getTags_step (tags s, []) (lines s) in
  ({| lines := lines s; tags := r.1 |}, r.2).

(** *** [tagLines] (source lines 313-356) *)

(** The loop variables of [tagLines]: the lines already visited (with
    their associations), [multilineTags] and the console. *)
Record TagState : Type := mkTagState {
  visited : list Line.t;
  multilineTags : list LineTag.t;
  tl_console : Console
}.

(** [line.tags.push(lineTag)] for every element of [added]. *)
Definition attach (added : list LineTag.t) (line : Line.t) : Line.t :=
  Line.mk (Line.code line) (Line.comment line) (Line.tags line ++ added).

(** One iteration of [for (let line of this.lines)] in [tagLines]. *)
Definition tagLines_step (registry : list Tag.t) (st : TagState)
    (line : Line.t) : TagState :=
  let comment := JsString.split JsString.is_space (Line.comment line) in
  let operator := comment !! 0 in
  let property := comment !! 1 in
  let tagName := comment !! 2 in
  let mode := comment !! 3 in
  if bool_decide (operator = Some "UTAGSET") then
    match Tag.find registry tagName with
    | None =>
        (* [continue]: the line is left as it is *)
        mkTagState (visited st ++ [line]) (multilineTags st)
          (tl_console st ++ [(LevelError,
             "Failed to set line tag " +:+ quoted (js_str tagName) +:+ ".")])
    | Some tag =>
        if bool_decide (property = Some "START") then
          let multi := multilineTags st ++ [LineTag.mk tag (LineTag.Mode mode)] in
          mkTagState (visited st ++ [attach ([] ++ multi) line]) multi
            (tl_console st)
        else if bool_decide (property = Some "END") then
          let multi :=
            filter (λ lineTag, Tag.nameOf registry (LineTag.tag lineTag)
                               ≠ Tag.nameOf registry tag)
              (multilineTags st) in
          let lineTags := [LineTag.mk tag (LineTag.Mode mode)] in
          mkTagState (visited st ++ [attach (lineTags ++ multi) line]) multi
            (tl_console st)
        else if bool_decide (property = Some "LINE") then
          let lineTags := [LineTag.mk tag (LineTag.Mode mode)] in
          mkTagState
            (visited st ++ [attach (lineTags ++ multilineTags st) line])
            (multilineTags st) (tl_console st)
        else
          mkTagState
            (visited st ++ [attach ([] ++ multilineTags st) line])
            (multilineTags st)
            (tl_console st ++ [(LevelWarn,
               "Skipping unknown property " +:+ quoted (js_str property)
               +:+ ".")])
    end
  else
    mkTagState (visited st ++ [attach ([] ++ multilineTags st) line])
      (multilineTags st) (tl_console st).

Definition tagLines_run (s : t) : TagState :=
  foldl (tagLines_step (tags s)) (mkTagState [] [] []) (lines s).

(** [script.tagLines()]: the script with the associations attached, and
    the console output. *)
Definition tagLines (s : t) : t * Console :=
  let r := tagLines_run s in
  ({| lines := visited r; tags := tags s |}, tl_console r).

(** *** [loadExternal] (source lines 279-311)

    The executor of the promise runs to completion first: it visits every
    tag, counts those without a link and calls [get(tag.link)] for the
    others.  The callbacks chained on each [get] run later, one fetch at a
    time and in whatever order the fetches settle.  [Loading] holds what
    these callbacks share: [this.lines], the counter [tagsLoaded], whether
    [resolve(this)] was called, the tags whose fetch has not settled and
    the console. *)
Record Loading : Type := mkLoading {
  ld_lines : list Line.t;
  tagsLoaded : nat;
  resolved : bool;
  awaiting : list Tag.Ref;
  ld_console : Console
}.

(** [ref.link] *)
Definition linkOf (registry : list Tag.t) (r : Tag.Ref) : string :=
  match registry !! r with
  | Some tg => Tag.link tg
  | None => ""
  end.

(** [tagsLoaded++; if (tagsLoaded >= this.tags.length) resolve(this);] *)
Definition countLoaded (registry : list Tag.t) (st : Loading) : Loading :=
  let n := S (tagsLoaded st) in
  mkLoading (ld_lines st) n
    (resolved st || bool_decide (length registry ≤ n))
    (awaiting st) (ld_console st).

(** One iteration of [for (const tag of this.tags)] in the executor. *)
Definition loadExternal_step (registry : list Tag.t) (st : Loading)
    (tag : Tag.Ref) : Loading :=
  if negb (JsString.truthy (linkOf registry tag)) then countLoaded registry st
  else
    mkLoading (ld_lines st) (tagsLoaded st) (resolved st)
      (awaiting st ++ [tag]) (ld_console st).

(** [script.loadExternal()] when the executor has returned. *)
Definition loadExternal (s : t) : Loading :=
  foldl (loadExternal_step (tags s)) (mkLoading (lines s) 0 false [] [])
    (seq 0 (length (tags s))).

(** How the promise returned by [get(tag.link)] settles. *)
Inductive Outcome : Type :=
  | Fulfilled (script : string)
  | Rejected (err : string).

(** The [then], [catch] and [finally] callbacks of one fetch. *)
Definition settle (registry : list Tag.t) (st : Loading) (tag : Tag.Ref)
    (o : Outcome) : Loading :=
  let st1 :=
    match o with
    | Fulfilled script =>
        mkLoading
          ((ld_lines st
            ++ [Line.new "" ("UTAGSET START " +:+ js_str (Tag.nameOf registry tag))])
           ++ lines (new script)
           ++ [Line.new "" ("UTAGSET END " +:+ js_str (Tag.nameOf registry tag))])
          (tagsLoaded st) (resolved st) (awaiting st) (ld_console st)
    | Rejected err =>
        mkLoading (ld_lines st) (tagsLoaded st) (resolved st) (awaiting st)
          (ld_console st ++ [(LevelError,
             "Error getting script linked by tag "
             +:+ quoted (Tag.toString registry tag)
             +:+ " from URL " +:+ linkOf registry tag +:+ ": " +:+ err)])
    end in
  let st2 := countLoaded registry st1 in
  mkLoading (ld_lines st2) (tagsLoaded st2) (resolved st2)
    (filter (λ r, r ≠ tag) (awaiting st2)) (ld_console st2).

(** One fetch settles. *)
Inductive settles (registry : list Tag.t) : Loading → Loading → Prop :=
  | settles_one st tag o :
      tag ∈ awaiting st → settles registry st (settle registry st tag o).

(** Any number of fetches settle, one after the other. *)
Inductive settles_many (registry : list Tag.t) : Loading → Loading → Prop :=
  | settles_none st : settles_many registry st st
  | settles_more st1 st2 st3 :
      settles registry st1 st2 → settles_many registry st2 st3 →
      settles_many registry st1 st3.

(** *** [compile] (source lines 358-400) *)

(** The loop [for (const lineTag of line.tags)] with its [break];
    [includeLine] is the variable of that name. *)
Fixpoint evaluate (registry : list Tag.t) (includedTagNames : list jsval)
    (lineTags : list LineTag.t) (includeLine : bool) : bool :=
  match lineTags with
  | [] => includeLine
  | lineTag :: rest =>
      let listed :=
        includes includedTagNames
          (Tag.nameOf registry (LineTag.tag lineTag)) in
      if LineTag.is_AND (LineTag.mode lineTag) then
        if listed then evaluate registry includedTagNames rest true
        else false
      else
        if listed then evaluate registry includedTagNames rest true
        else evaluate registry includedTagNames rest includeLine
  end.

(** The value of [includeLine] when the line is about to be emitted. *)
Definition includeLine (registry : list Tag.t) (includedTagNames : list jsval)
    (line : Line.t) : bool :=
  evaluate registry includedTagNames (Line.tags line) false.

(** The text added to [output] for an included line. *)
Definition render (uglified : bool) (line : Line.t) : string :=
  Line.code line
  +:+ (if negb uglified && JsString.truthy (Line.comment line)
       then (if JsString.truthy (Line.code line) then " " else "")
            +:+ "// " +:+ Line.comment line
       else "")
  +:+ newline.

(** [output] after the loop over the lines. *)
Definition selected (s : t) (includedTagNames : list jsval)
    (uglified : bool) : string :=
  foldl (λ output line,
           if includeLine (tags s) includedTagNames line
           then output +:+ render uglified line
           else output)
    "" (lines s).

Section Transforms.

(** The two libraries the file requires: [(await terser.minify(x)).code]
    and [prettier.format(x, ...)].  [None] stands for a thrown
    exception, which rejects the promise of the enclosing [async]
    function. *)
Variable minify : string → option string.
Variable format : string → option string.

(** [script.compile(includedTagNames, uglified, beautified)]; [None]
    is a rejected promise. *)
Definition compile (s : t) (includedTagNames : list jsval)
    (uglified beautified : bool) : option string :=
  let output := selected s includedTagNames uglified in
  output ← (if uglified then minify output else Some output);
  if beautified then format output else Some output.

(** *** [measureTags] (source lines 402-420) *)

(** The names pushed by [for (const dependencyTag of ...)]. *)
Definition namesOf (registry : list Tag.t) (refs : list Tag.Ref)
    : list jsval :=
  Tag.nameOf registry <$> refs.

(** One iteration of [for (const tag of this.tags)]; both calls of
    [compile] take the default arguments [uglified = true] and
    [beautified = false]. *)
Definition measureTags_step (st : t * Console) (tag : Tag.Ref)
    : option (t * Console) :=
  let s := st.1 in
  inclusive ← Tag.dependencies (tags s) true tag;
  inclusiveOutput ← compile s (namesOf (tags s) inclusive.1) true false;
  let inclusiveLength := String.length inclusiveOutput in
  exclusive ← Tag.dependencies (tags s) false tag;
  exclusiveOutput ← compile s (namesOf (tags s) exclusive.1) true false;
  let exclusiveLength := String.length exclusiveOutput in
  Some ({| lines := lines s;
           tags := alter (set_size (Z.of_nat inclusiveLength
                                    - Z.of_nat exclusiveLength)%Z)
                     tag (tags s) |},
        st.2 ++ inclusive.2 ++ exclusive.2).

Fixpoint measureTags_loop (refs : list Tag.Ref) (st : t * Console)
    : option (t * Console) :=
  match refs with
  | [] => Some st
  | tag :: rest =>
      st' ← measureTags_step st tag;
      measureTags_loop rest st'
  end.

(** [script.measureTags()]; [None] is a rejected promise (what the script
    and the console hold at the rejection is left out).  [dependencies]
    itself never gives [None], see [dependencies_total]. *)
Definition measureTags (s : t) : option (t * Console) :=
  measureTags_loop (seq 0 (length (tags s))) (s, []).

End Transforms.

End Script.

(** ** The handler of the compile button (source lines 530-549) *)

Module Builder.

(** The loop over [script.tags] in the [onclick] handler of
    [compileScriptButton].  [checked key] is [tagBoxes[key].checked], the
    state of the check box stored under the tag's name as a property key.
    Every checked tag calls [tag.dependencies(true, tag, includedTagNames)]
    with the array the previous calls have filled. *)
Fixpoint checkedDependencies (registry : list Tag.t) (checked : string → bool)
    (refs : list Tag.Ref) (st : Tag.DepState) : option Tag.DepState :=
  match refs with
  | [] => Some st
  | tag :: rest =>
      if checked (Tag.toString registry tag) then
        st' ← Tag.collect registry (S (length registry)) tag st;
        checkedDependencies registry checked rest st'
      else checkedDependencies registry checked rest st
  end.

(** [includedTagNames] after [includedTagNames.map((tag) => tag.name)]:
    the selected tags, their names, and the console. *)
Definition includedTags (registry : list Tag.t) (checked : string → bool)
    : option Tag.DepState :=
  checkedDependencies registry checked (seq 0 (length registry)) ([], []).

Definition includedTagNames (registry : list Tag.t) (checked : string → bool)
    : option (list jsval * Console) :=
  st ← includedTags registry checked;
  Some (Script.namesOf registry st.1, st.2).

(** The text handed to [generateDownload]: [script.compile] on these
    names, with the states of the two post-processing boxes. *)
Definition compileScript (minify format : string → option string)
    (s : Script.t) (checked : string → bool) (uglify beautify : bool)
    : option string :=
  names ← includedTagNames (Script.tags s) checked;
  Script.compile minify format s names.1 uglify beautify.

End Builder.

(** * Notions used in the statements *)

(** ** Emitted text *)

(** The text of a list of lines, each emitted when [includeLine] holds:
    [output] of [compile] before the transforms. *)
Definition emit (registry : list Tag.t) (includedTagNames : list jsval)
    (uglified : bool) (ls : list Line.t) : string :=
  Script.selected (Script.mk ls registry) includedTagNames uglified.

Definition emit_line (registry : list Tag.t) (includedTagNames : list jsval)
    (uglified : bool) (l : Line.t) : string :=
  if Script.includeLine registry includedTagNames l
  then Script.render uglified l else "".

(** The spec's reading of a compilation with no tag selected: the lines
    that carry no association, each rendered as [compile] renders a line. *)
Definition spec_untagged_text (u : bool) (s : Script.t) : string :=
  foldr (λ l out, Script.render u l +:+ out) ""
    (filter (λ l, Line.tags l = []) (Script.lines s)).

(** ** Results of [dependencies] *)

(** What every [output] array satisfies: no tag twice, and only tags of
    the registry. *)
Definition tidy (registry : list Tag.t) (out : list nat) : Prop :=
  NoDup out ∧ ∀ r, r ∈ out → r < length registry.

(** A call leaves a tidy array that starts with the array it was given. *)
Definition grows (registry : list Tag.t) (st st' : list nat * Console) : Prop :=
  tidy registry st'.1 ∧ st.1 `prefix_of` st'.1.

(** A recursive call that can be trusted once [output] holds [m] tags. *)
Definition sound_from (registry : list Tag.t) (m : nat)
    (recurse : nat → list nat * Console → option (list nat * Console)) : Prop :=
  ∀ r st, r < length registry → tidy registry st.1 → m ≤ length st.1 →
    ∃ st', recurse r st = Some st' ∧ grows registry st st' ∧ r ∈ st'.1.

(** [t] requires [r]: a required name of [t] resolves to [r], or [r] is the
    tag named [REQUIRED], which every call of [dependencies] adds. *)
Inductive requires (registry : list Tag.t) (t r : nat) : Prop :=
  | requires_name n :
      n ∈ Tag.requiredOf registry t → Tag.find registry n = Some r →
      requires registry t r
  | requires_universal :
      Tag.universal registry = Some r → requires registry t r.

(** The tags that entered [output] between [old] and [new] have their
    resolved required names in [new]. *)
Definition expanded (registry : list Tag.t) (old new : list nat) : Prop :=
  ∀ t, t ∈ new → t ∉ old →
    ∀ n r, n ∈ Tag.requiredOf registry t → Tag.find registry n = Some r →
      r ∈ new.

(** The tags that entered [output] between [old] and [new] are required,
    in zero or more steps, by one of [roots]. *)
Definition stems (registry : list Tag.t) (roots old new : list nat) : Prop :=
  ∀ t, t ∈ new → t ∉ old →
    ∃ root, root ∈ roots ∧ rtc (requires registry) root t.

(** What a returning call of [dependencies] on [r] has done to [output]. *)
Definition explores (registry : list Tag.t)
    (recurse : nat → list nat * Console → option (list nat * Console)) : Prop :=
  ∀ r st st', recurse r st = Some st' →
    st.1 `prefix_of` st'.1
    ∧ r ∈ st'.1
    ∧ (∀ u, Tag.universal registry = Some u → u ∈ st'.1)
    ∧ expanded registry st.1 st'.1
    ∧ stems registry [r] st.1 st'.1.

(** No required name dangles: each names a tag of the registry. *)
Definition resolvable (registry : list Tag.t) : Prop :=
  ∀ t n, n ∈ Tag.requiredOf registry t → is_Some (Tag.find registry n).

(** [g] returns whatever [f] returns. *)
Definition refines
    (f g : nat → list nat * Console → option (list nat * Console)) : Prop :=
  ∀ r st st', f r st = Some st' → g r st = Some st'.

(** How often a tag occurs in a result. *)
Definition occurrences (r : nat) (out : list nat) : nat :=
  length (filter (λ x, x = r) out).

(** ** Comments as the constructor builds them *)

(** [comment += `${word} `] for each word of the comment. *)
Fixpoint spaced (words : list string) : string :=
  match words with
  | [] => ""
  | w :: ws => w +:+ " " +:+ spaced ws
  end.

Fixpoint no_space (s : string) : bool :=
  match s with
  | EmptyString => true
  | String c rest => negb (JsString.is_space c) && no_space rest
  end.

(** A word of a comment: not empty, no space inside. *)
Definition is_word (w : string) : bool := JsString.truthy w && no_space w.

(** Parsing, [getTags] and [tagLines], as [build] chains them when no tag
    has a link. *)
Definition prepared (text : string) : Script.t :=
  (Script.tagLines (Script.getTags (Script.new text)).1).1.

(** ** Sizes *)

(** What [dependencies] and [compile] read of a registry: the names and the
    required names, not the sizes. *)
Definition same_graph (reg reg' : list Tag.t) : Prop :=
  Tag.name <$> reg = Tag.name <$> reg'
  ∧ Tag.requiredTagNames <$> reg = Tag.requiredTagNames <$> reg'.

(** The size [measureTags] computes for a tag: the length of the output
    for the names of [dependencies(true)] less that for the names of
    [dependencies(false)], both compiled with [uglified = true] and
    [beautified = false]. *)
Definition measured (minify format : string → option string) (s : Script.t)
    (tag : nat) : option Z :=
  inclusive ← Tag.dependencies (Script.tags s) true tag;
  oi ← Script.compile minify format s
          (Script.namesOf (Script.tags s) inclusive.1) true false;
  exclusive ← Tag.dependencies (Script.tags s) false tag;
  oe ← Script.compile minify format s
          (Script.namesOf (Script.tags s) exclusive.1) true false;
  Some (Z.of_nat (String.length oi) - Z.of_nat (String.length oe))%Z.

(** The size as the spec words it: both compilations with minify and
    format disabled. *)
Definition spec_size (minify format : string → option string) (s : Script.t)
    (tag : nat) : option Z :=
  inclusive ← Tag.dependencies (Script.tags s) true tag;
  oi ← Script.compile minify format s
          (Script.namesOf (Script.tags s) inclusive.1) false false;
  exclusive ← Tag.dependencies (Script.tags s) false tag;
  oe ← Script.compile minify format s
          (Script.namesOf (Script.tags s) exclusive.1) false false;
  Some (Z.of_nat (String.length oi) - Z.of_nat (String.length oe))%Z.

Definition resized (tg0 tg : Tag.t) : Prop := ∃ z, tg = Script.set_size z tg0.

(** What holds of the script throughout [measureTags]: only sizes differ
    from the script [s0] it started with. *)
Definition sizes_only (s0 s : Script.t) : Prop :=
  Script.lines s = Script.lines s0
  ∧ Forall2 resized (Script.tags s0) (Script.tags s).

(** Tag [i] holds the size [measureTags] computes for it. *)
Definition sized (minify format : string → option string) (s0 s : Script.t)
    (i : nat) : Prop :=
  ∀ tg0, Script.tags s0 !! i = Some tg0 →
    ∃ z, measured minify format s0 i = Some z
         ∧ Script.tags s !! i = Some (Script.set_size z tg0).

(** The texts [measureTags] hands to the minifier: for every tag, the
    lines [compile] selects for the names of [dependencies(true)] and for
    those of [dependencies(false)]. *)
Definition handed (s : Script.t) (x : string) : Prop :=
  ∃ tag includeSelf deps,
    tag < length (Script.tags s)
    ∧ Tag.dependencies (Script.tags s) includeSelf tag = Some deps
    ∧ x = Script.selected s (Script.namesOf (Script.tags s) deps.1) true.

(** A stand-in for the minifier: it drops the white space. *)
Fixpoint strip_blanks (s : string) : string :=
  match s with
  | EmptyString => EmptyString
  | String c rest =>
      if JsString.is_white c then strip_blanks rest
      else String c (strip_blanks rest)
  end.

(** ** Loading *)

(** What holds once the executor has visited the first [k] tags, and,
    with [k] the number of tags, whenever fetches settle afterwards. *)
Definition counted (registry : list Tag.t) (k : nat) (st : Script.Loading)
    : Prop :=
  Script.tagsLoaded st + length (Script.awaiting st) = k
  ∧ NoDup (Script.awaiting st)
  ∧ (∀ r, r ∈ Script.awaiting st → r < k)
  ∧ (Script.resolved st = true
     ↔ 0 < Script.tagsLoaded st ∧ length registry ≤ Script.tagsLoaded st).

(** The fetches of [refs] settle in that order, the fetch of [tag] with the
    outcome [o tag]. *)
Definition settle_each (registry : list Tag.t) (o : nat → Script.Outcome)
    (st : Script.Loading) (refs : list nat) : Script.Loading :=
  foldl (λ st tag, Script.settle registry st tag (o tag)) st refs.

(** ** Lines after [tagLines] *)

(** [line'] is [line] with associations pushed on it, each to a tag of the
    registry. *)
Definition tagged (registry : list Tag.t) (line line' : Line.t) : Prop :=
  Line.code line' = Line.code line
  ∧ Line.comment line' = Line.comment line
  ∧ ∃ added, Line.tags line' = Line.tags line ++ added
             ∧ Forall (λ lt, LineTag.tag lt < length registry) added.

(** ** Lines spliced by [loadExternal] *)

(** The lines a fulfilled fetch for a tag named [n] appends: the fetched
    script between its two marker lines. *)
Definition spliced (n : string) (script : string) : list Line.t :=
  [Line.new "" ("UTAGSET START " +:+ n)]
  ++ Script.lines (Script.new script)
  ++ [Line.new "" ("UTAGSET END " +:+ n)].

(** The comment of the line is no [UTAGSET] directive. *)
Definition sets_no_tag (line : Line.t) : Prop :=
  JsString.split JsString.is_space (Line.comment line) !! 0 ≠ Some "UTAGSET".

(** ** Lines as the constructor builds them *)

(** The code and the comment are words, each followed by one space, and
    the line carries no association yet. *)
Definition built (line : Line.t) : Prop :=
  ∃ cw kw,
    Forall (λ w, is_word w = true) cw
    ∧ Forall (λ w, is_word w = true) kw
    ∧ line = Line.mk (spaced cw) (spaced kw) [].

(** * Example scripts and registries *)

(** The untagged line [x=1;] and a line tagged [(EXTRA, OR)]. *)
Definition script_untagged_and_extra : Script.t :=
  {| Script.lines :=
       [ Line.mk "x=1; " "" [];
         Line.mk "extra(); " "" [LineTag.mk 0 (LineTag.Mode (Some "OR"))] ];
     Script.tags := [Tag.new (Some "EXTRA")] |}.

(** A cycle ([A] requires [B], [B] requires [A]) and a required name that
    names no tag. *)
Definition registry_cycle : list Tag.t :=
  [ Tag.mk (Some "A") "" 0 [Some "B"; Some "Z"] "";
    Tag.mk (Some "B") "" 0 [Some "A"] "" ].

(** [A] requires [B], and the tag [REQUIRED] is defined. *)
Definition registry_with_required : list Tag.t :=
  [ Tag.mk (Some "A") "" 0 [Some "B"] "";
    Tag.new (Some "B");
    Tag.new (Some "REQUIRED") ].

(** A registry that holds the tag [REQUIRED] only. *)
Definition registry_required_only : list Tag.t := [Tag.new (Some "REQUIRED")].

(** A block whose tag no [UTAGDEF] line defines. *)
Definition text_block_undefined : string :=
  "a(); // UTAGSET START X OR" +:+ newline +:+
  "y=2;" +:+ newline +:+
  "b(); // UTAGSET END X OR".

(** The same block after a definition of its tag. *)
Definition text_block_defined : string :=
  "// UTAGDEF DESC X block" +:+ newline +:+ text_block_undefined.

(** A block of [X] with a line that names the unknown tag [NOPE] inside. *)
Definition text_unknown_in_block : string :=
  "// UTAGDEF DESC X block" +:+ newline +:+
  "// UTAGSET START X OR" +:+ newline +:+
  "a(); // UTAGSET LINE NOPE OR" +:+ newline +:+
  "b();" +:+ newline +:+
  "// UTAGSET END X OR".

(** A requirement on a tag that is only defined further down is dropped
    with a warning; one on a tag defined above is recorded. *)
Definition text_requirements : string :=
  "// UTAGDEF REQU A B" +:+ newline +:+
  "// UTAGDEF DESC B second" +:+ newline +:+
  "// UTAGDEF REQU B A".

(** One tag [A] and one line of code that carries it. *)
Definition text_one_tag : string :=
  "// UTAGDEF DESC A first" +:+ newline +:+ "f(); // UTAGSET LINE A OR".

(** * Properties *)

(** ** Strings *)

Lemma app_String (c : ascii) (s t : string) :
  String c s +:+ t = String c (s +:+ t).
Proof. reflexivity. Qed.

Lemma app_empty_r (s : string) : s +:+ "" = s.
Proof. induction s as [|c s IH]; [done|]. by rewrite app_String, IH. Qed.

Lemma app_assoc' (a b c : string) : (a +:+ b) +:+ c = a +:+ (b +:+ c).
Proof. induction a as [|x a IH]; [done|]. by rewrite !app_String, IH. Qed.

(** ** [compile]: which lines are emitted *)

Section Emission.

Variable registry : list Tag.t.
Variable includedTagNames : list jsval.
Variable uglified : bool.

Lemma foldl_emit (acc : string) (ls : list Line.t) :
  foldl (λ output line,
           if Script.includeLine registry includedTagNames line
           then output +:+ Script.render uglified line
           else output) acc ls
  = acc +:+ emit registry includedTagNames uglified ls.
Proof.
  unfold emit, Script.selected. cbn [Script.lines Script.tags].
  revert acc. induction ls as [|l ls IH]; intros acc; cbn [foldl].
  - by rewrite app_empty_r.
  - rewrite IH. symmetry. rewrite IH. symmetry.
    destruct (Script.includeLine _ _ l); [|done].
    by rewrite app_assoc'.
Qed.

Lemma emit_nil : emit registry includedTagNames uglified [] = "".
Proof. done. Qed.

Lemma emit_cons (l : Line.t) (ls : list Line.t) :
  emit registry includedTagNames uglified (l :: ls)
  = emit_line registry includedTagNames uglified l
    +:+ emit registry includedTagNames uglified ls.
Proof.
  unfold emit at 1, Script.selected. cbn [Script.lines Script.tags foldl].
  rewrite foldl_emit. unfold emit_line.
  by destruct (Script.includeLine _ _ l).
Qed.

Lemma emit_app (ls1 ls2 : list Line.t) :
  emit registry includedTagNames uglified (ls1 ++ ls2)
  = emit registry includedTagNames uglified ls1
    +:+ emit registry includedTagNames uglified ls2.
Proof.
  induction ls1 as [|l ls1 IH]; [done|].
  rewrite <- app_comm_cons, !emit_cons, IH. by rewrite app_assoc'.
Qed.

Lemma includeLine_untagged (c k : string) :
  Script.includeLine registry includedTagNames (Line.mk c k []) = false.
Proof. done. Qed.

Lemma emit_drop_untagged (ls : list Line.t) :
  emit registry includedTagNames uglified (filter (λ l, Line.tags l ≠ []) ls)
  = emit registry includedTagNames uglified ls.
Proof.
  induction ls as [|l ls IH]; [done|].
  rewrite filter_cons. case_decide as Hl.
  - by rewrite !emit_cons, IH.
  - rewrite emit_cons, IH.
    unfold emit_line, Script.includeLine. by rewrite Hl.
Qed.

End Emission.

Lemma selected_emit (s : Script.t) (names : list jsval) (u : bool) :
  Script.selected s names u = emit (Script.tags s) names u (Script.lines s).
Proof. by destruct s. Qed.

Lemma evaluate_no_names (registry : list Tag.t) (lts : list LineTag.t) :
  Script.evaluate registry [] lts false = false.
Proof.
  induction lts as [|lt lts IH]; [done|]. cbn.
  by destruct (LineTag.is_AND _).
Qed.

Lemma emit_no_names (registry : list Tag.t) (u : bool) (ls : list Line.t) :
  emit registry [] u ls = "".
Proof.
  induction ls as [|l ls IH]; [done|].
  rewrite emit_cons, IH. unfold emit_line, Script.includeLine.
  by rewrite evaluate_no_names.
Qed.

Lemma compile_plain (minify format : string → option string) (s : Script.t)
    (names : list jsval) :
  Script.compile minify format s names false false
  = Some (emit (Script.tags s) names false (Script.lines s)).
Proof. unfold Script.compile. by rewrite selected_emit. Qed.

(** C1, as stated, fails: compiled with the empty set and both transforms
    off, the example script yields the empty text, not the text of its
    untagged line [x=1;]. *)
Lemma empty_set_output_is_not_the_untagged_lines :
  Script.compile Some Some script_untagged_and_extra [] false false = Some ""
  ∧ spec_untagged_text false script_untagged_and_extra = "x=1; " +:+ newline
  ∧ Script.compile Some Some script_untagged_and_extra [] false false
    ≠ Some (spec_untagged_text false script_untagged_and_extra).
Proof. split; [|split]; [reflexivity | reflexivity | discriminate]. Qed.

(** C1 (amended): for every script, compiling with the empty included-tag
    set selects no line at all, tagged or not; with minify and format off
    the output is the empty text. *)
Theorem compile_empty_set_selects_nothing
    (minify format : string → option string) (s : Script.t) (uglified : bool) :
  Script.selected s [] uglified = ""
  ∧ (∀ l, Script.includeLine (Script.tags s) [] l = false)
  ∧ Script.compile minify format s [] false false = Some "".
Proof.
  split; [|split].
  - by rewrite selected_emit, emit_no_names.
  - intros l. apply evaluate_no_names.
  - by rewrite compile_plain, emit_no_names.
Qed.

(** C10: whatever names are included, a line whose association list is
    empty is not emitted: [includeLine] is false for it, and the output of
    [compile] is the output for the script without its untagged lines. *)
Theorem untagged_lines_never_emitted
    (minify format : string → option string) (s : Script.t)
    (includedTagNames : list jsval) (uglified beautified : bool) :
  (∀ c k, Script.includeLine (Script.tags s) includedTagNames
            (Line.mk c k []) = false)
  ∧ Script.compile minify format s includedTagNames uglified beautified
    = Script.compile minify format
        (Script.mk (filter (λ l, Line.tags l ≠ []) (Script.lines s))
           (Script.tags s))
        includedTagNames uglified beautified.
Proof.
  split; [done|].
  unfold Script.compile. rewrite !selected_emit. cbn [Script.lines Script.tags].
  by rewrite emit_drop_untagged.
Qed.

(** C7: a line tagged [(A, OR)] then [(B, AND)] is excluded when only [A]
    is included, and included when [A] and [B] both are. *)
Theorem and_veto_in_order
    (registry : list Tag.t) (a b : Tag.Ref) (A B : string) (c k : string) :
  Tag.nameOf registry a = Some A →
  Tag.nameOf registry b = Some B →
  A ≠ B →
  let line :=
    Line.mk c k [ LineTag.mk a (LineTag.Mode (Some "OR"));
                  LineTag.mk b (LineTag.Mode (Some "AND")) ] in
  let s := Script.mk [line] registry in
  Script.includeLine registry [Some A] line = false
  ∧ Script.includeLine registry [Some A; Some B] line = true
  ∧ ∀ minify format,
      Script.compile minify format s [Some A] false false = Some ""
      ∧ Script.compile minify format s [Some A; Some B] false false
        = Some (Script.render false line).
Proof.
  intros Ha Hb Hne line s.
  assert (Script.includeLine registry [Some A] line = false) as H1.
  { unfold Script.includeLine, line. cbn. rewrite Ha, Hb. unfold includes.
    rewrite bool_decide_eq_true_2 by repeat constructor.
    rewrite bool_decide_eq_false_2; [done|].
    rewrite list_elem_of_singleton. congruence. }
  assert (Script.includeLine registry [Some A; Some B] line = true) as H2.
  { unfold Script.includeLine, line. cbn. rewrite Ha, Hb. unfold includes.
    by rewrite !bool_decide_eq_true_2 by repeat constructor. }
  split; [exact H1|]. split; [exact H2|]. intros minify format.
  rewrite !compile_plain. cbn [Script.lines Script.tags s].
  rewrite !emit_cons, !emit_nil. unfold emit_line. rewrite H1, H2.
  by rewrite !app_empty_r.
Qed.

(** The veto on the registry [A], [B]. *)
Lemma and_veto_in_order_witness :
  Script.includeLine [Tag.new (Some "A"); Tag.new (Some "B")] [Some "A"]
    (Line.mk "f(); " "" [ LineTag.mk 0 (LineTag.Mode (Some "OR"));
                          LineTag.mk 1 (LineTag.Mode (Some "AND")) ]) = false
  ∧ Script.includeLine [Tag.new (Some "A"); Tag.new (Some "B")]
      [Some "A"; Some "B"]
      (Line.mk "f(); " "" [ LineTag.mk 0 (LineTag.Mode (Some "OR"));
                            LineTag.mk 1 (LineTag.Mode (Some "AND")) ]) = true.
Proof.
  pose proof (and_veto_in_order [Tag.new (Some "A"); Tag.new (Some "B")]
                0 1 "A" "B" "f(); " ""
                eq_refl eq_refl ltac:(discriminate)) as H.
  cbv zeta in H. destruct H as (H1 & H2 & _). exact (conj H1 H2).
Defined.

(** ** [dependencies]: termination and shape of the result *)

Section DependenciesFacts.

Variable registry : list Tag.t.

Lemma find_Some (n : jsval) (r : Tag.Ref) :
  Tag.find registry n = Some r →
  r < length registry ∧ Tag.nameOf registry r = n.
Proof.
  unfold Tag.find, Tag.nameOf. intros H.
  destruct (list_find _ registry) as [[i tg]|] eqn:Hf; [|done].
  cbn in H. injection H as ->. apply list_find_Some in Hf as (Hl & Hn & _).
  rewrite Hl. split; [|done]. by eapply lookup_lt_Some.
Qed.

Lemma find_None (n : jsval) (r : Tag.Ref) :
  Tag.find registry n = None → r < length registry →
  Tag.nameOf registry r ≠ n.
Proof.
  unfold Tag.find, Tag.nameOf. intros H Hr.
  destruct (list_find _ registry) as [[i tg]|] eqn:Hf; [done|].
  apply list_find_None in Hf.
  destruct (lookup_lt_is_Some_2 registry r Hr) as [tg Htg]. rewrite Htg.
  rewrite Forall_forall in Hf. apply Hf. apply list_elem_of_lookup. eauto.
Qed.

Lemma tidy_length (out : list Tag.Ref) :
  tidy registry out → length out ≤ length registry.
Proof.
  intros [Hnd Hlt].
  assert (length out ≤ length (seq 0 (length registry))) as H.
  { apply submseteq_length, NoDup_submseteq; [done|].
    intros r Hr. apply elem_of_seq. specialize (Hlt r Hr). lia. }
  by rewrite length_seq in H.
Qed.

Lemma tidy_nil : tidy registry [].
Proof. split; [constructor|]. intros r Hr. by apply elem_of_nil in Hr. Qed.

Lemma tidy_snoc (out : list Tag.Ref) (r : Tag.Ref) :
  tidy registry out → r ∉ out → r < length registry →
  tidy registry (out ++ [r]).
Proof.
  intros [Hnd Hlt] Hr Hn. split.
  - apply NoDup_app. split; [done|]. split; [|apply NoDup_singleton].
    intros x Hx Hx'. apply list_elem_of_singleton in Hx'. by subst.
  - intros x [Hx|Hx]%elem_of_app; [by apply Hlt|].
    apply list_elem_of_singleton in Hx. by subst.
Qed.

Lemma grows_refl (st : Tag.DepState) : tidy registry st.1 → grows registry st st.
Proof. by split. Qed.

Lemma grows_trans (st1 st2 st3 : Tag.DepState) :
  grows registry st1 st2 → grows registry st2 st3 → grows registry st1 st3.
Proof. intros [_ H12] [H3 H23]. split; [done|]. by etrans. Qed.

Lemma grows_length (st st' : Tag.DepState) :
  grows registry st st' → length st.1 ≤ length st'.1.
Proof. intros [_ H]. by apply prefix_length. Qed.

Lemma grows_elem (st st' : Tag.DepState) (r : Tag.Ref) :
  grows registry st st' → r ∈ st.1 → r ∈ st'.1.
Proof. intros [_ [k ->]] Hr. apply elem_of_app. by left. Qed.

Lemma requireAll_sound (m : nat) recurse (addingTag : Tag.Ref)
    (names : list jsval) (st : Tag.DepState) :
  sound_from registry m recurse → tidy registry st.1 → m ≤ length st.1 →
  ∃ st', Tag.requireAll registry recurse addingTag names st = Some st'
         ∧ grows registry st st'.
Proof.
  intros Hrec. revert st.
  induction names as [|n names IH]; intros st Htidy Hm; cbn [Tag.requireAll].
  - exists st. split; [done|]. by apply grows_refl.
  - destruct (Tag.find registry n) as [r|] eqn:Hfind.
    + apply find_Some in Hfind as [Hr _].
      destruct (Hrec r st Hr Htidy Hm) as (st1 & -> & Hg1 & _). cbn.
      destruct (IH st1) as (st2 & -> & Hg2).
      * apply Hg1.
      * pose proof (grows_length _ _ Hg1). lia.
      * exists st2. split; [done|]. by eapply grows_trans.
    + destruct (IH (st.1, st.2 ++ [(LevelWarn,
          "Error getting required tag " +:+ quoted (js_str n)
          +:+ " for tag " +:+ quoted (Tag.toString registry addingTag)
          +:+ ".")])) as (st2 & -> & Hg2); [done..|].
      exists st2. split; [done|]. destruct Hg2 as [? ?]. by split.
Qed.

Lemma drain_sound (m : nat) recurse (toAdd : list Tag.Ref)
    (st : Tag.DepState) :
  sound_from registry (S m) recurse → (∀ r, r ∈ toAdd → r < length registry) →
  tidy registry st.1 → m ≤ length st.1 →
  ∃ st', Tag.drain registry recurse toAdd st = Some st'
         ∧ grows registry st st' ∧ ∀ r, r ∈ toAdd → r ∈ st'.1.
Proof.
  intros Hrec. revert st.
  induction toAdd as [|a toAdd IH]; intros st Hin Htidy Hm; cbn [Tag.drain].
  - exists st. split; [done|]. split; [by apply grows_refl|].
    intros r Hr. by apply elem_of_nil in Hr.
  - assert (∀ r, r ∈ toAdd → r < length registry) as Hin'.
    { intros r Hr. apply Hin. by right. }
    case_bool_decide as Ha.
    + destruct (IH st Hin' Htidy Hm) as (st' & -> & Hg & Hall).
      exists st'. split; [done|]. split; [done|].
      intros r [->|Hr]%elem_of_cons; [by eapply grows_elem|by apply Hall].
    + assert (tidy registry (st.1 ++ [a])) as Htidy1.
      { apply tidy_snoc; [done..|]. apply Hin. by left. }
      destruct (requireAll_sound (S m) recurse a
                  (Tag.requiredOf registry a) (st.1 ++ [a], st.2))
        as (st1 & -> & Hg1); [done|done|..].
      { cbn. rewrite length_app. cbn. lia. }
      cbn.
      assert (grows registry st st1) as Hg01.
      { destruct Hg1 as [Ht1 Hp1]. split; [done|].
        etrans; [|exact Hp1]. by apply prefix_app_r. }
      destruct (IH st1 Hin') as (st' & -> & Hg & Hall).
      * apply Hg1.
      * pose proof (grows_length _ _ Hg01). lia.
      * exists st'. split; [done|]. split; [by eapply grows_trans|].
        intros r [->|Hr]%elem_of_cons; [|by apply Hall].
        eapply grows_elem; [done|]. eapply grows_elem; [exact Hg1|].
        cbn. apply elem_of_app. right. by left.
Qed.

Lemma universal_lt (r : Tag.Ref) :
  r ∈ option_list (Tag.universal registry) → r < length registry.
Proof.
  unfold Tag.universal.
  destruct (Tag.find registry (Some "REQUIRED")) as [u|] eqn:Hu; cbn.
  - intros ->%list_elem_of_singleton. by apply find_Some in Hu as [? _].
  - intros Hr. by apply elem_of_nil in Hr.
Qed.

(** The recursion never runs out of fuel: every call made with [fuel]
    left happens when more than [length registry - fuel] tags are in
    [output]. *)
Lemma collect_sound (fuel m : nat) :
  length registry < fuel + m → sound_from registry m (Tag.collect registry fuel).
Proof.
  revert m. induction fuel as [|fuel IH]; intros m Hfuel r st Hr Htidy Hm.
  - pose proof (tidy_length _ Htidy). lia.
  - cbn [Tag.collect].
    destruct (drain_sound (length st.1) (Tag.collect registry fuel)
                (r :: option_list (Tag.universal registry)) st)
      as (st' & Hst' & Hg & Hall); [|..|done|lia|].
    + apply IH. lia.
    + intros x [->|Hx]%elem_of_cons; [done|by apply universal_lt].
    + exists st'. split; [done|]. split; [done|]. apply Hall. by left.
Qed.

Lemma collect_universal (fuel : nat) (tag u : Tag.Ref)
    (st st' : Tag.DepState) :
  tag < length registry → tidy registry st.1 →
  length registry < fuel + length st.1 →
  Tag.collect registry fuel tag st = Some st' →
  Tag.universal registry = Some u → u ∈ st'.1.
Proof.
  intros Hr Htidy Hfuel Hc Hu. destruct fuel as [|fuel]; [done|].
  cbn [Tag.collect] in Hc.
  destruct (drain_sound (length st.1) (Tag.collect registry fuel)
              (tag :: option_list (Tag.universal registry)) st)
    as (st1 & Hst1 & Hg & Hall); [|..|done|lia|].
  - apply collect_sound. lia.
  - intros x [->|Hx]%elem_of_cons; [done|by apply universal_lt].
  - rewrite Hc in Hst1. injection Hst1 as <-. apply Hall.
    rewrite Hu. cbn. right. by left.
Qed.

End DependenciesFacts.

(** More fuel does not change what a call returns. *)
Section Fuel.

Variable registry : list Tag.t.

Lemma requireAll_refines f g (a : nat) (names : list jsval) st st' :
  refines f g →
  Tag.requireAll registry f a names st = Some st' →
  Tag.requireAll registry g a names st = Some st'.
Proof.
  intros Hfg. revert st.
  induction names as [|n names IH]; intros st; cbn [Tag.requireAll]; [done|].
  destruct (Tag.find registry n) as [r|]; [|by apply IH].
  destruct (f r st) as [st1|] eqn:Hf; [|done]. cbn.
  rewrite (Hfg _ _ _ Hf). cbn. apply IH.
Qed.

Lemma drain_refines f g (toAdd : list nat) st st' :
  refines f g →
  Tag.drain registry f toAdd st = Some st' →
  Tag.drain registry g toAdd st = Some st'.
Proof.
  intros Hfg. revert st.
  induction toAdd as [|a toAdd IH]; intros st; cbn [Tag.drain]; [done|].
  case_bool_decide; [by apply IH|].
  destruct (Tag.requireAll registry f a _ _) as [st1|] eqn:Hf; [|done]. cbn.
  rewrite (requireAll_refines f g _ _ _ _ Hfg Hf). cbn. apply IH.
Qed.

Lemma collect_S (fuel : nat) :
  refines (Tag.collect registry fuel) (Tag.collect registry (S fuel)).
Proof.
  induction fuel as [|fuel IH]; intros r st st' H; [done|].
  cbn [Tag.collect] in *. by eapply drain_refines.
Qed.

Lemma collect_more (fuel fuel' : nat) :
  fuel ≤ fuel' →
  refines (Tag.collect registry fuel) (Tag.collect registry fuel').
Proof.
  induction 1 as [|fuel' _ IH]; [by intros ???|].
  intros r st st' H. by apply collect_S, IH.
Qed.

End Fuel.

Lemma occurrences_not_elem (r : nat) (out : list nat) :
  r ∉ out → occurrences r out = 0.
Proof.
  unfold occurrences. induction out as [|x out IH]; intros Hr; [done|].
  rewrite filter_cons. case_decide as Hx.
  - subst. exfalso. apply Hr. by left.
  - apply IH. intros H. apply Hr. by right.
Qed.

Lemma occurrences_NoDup (r : nat) (out : list nat) :
  NoDup out → r ∈ out → occurrences r out = 1.
Proof.
  unfold occurrences. induction 1 as [|x out Hx Hnd IH]; intros Hr.
  - by apply elem_of_nil in Hr.
  - rewrite filter_cons. case_decide as Hxr.
    + subst. cbn. f_equal. by apply occurrences_not_elem.
    + apply IH. apply elem_of_cons in Hr as [->|Hr]; done.
Qed.

Lemma dependencies_total (registry : list Tag.t) (includeSelf : bool)
    (tag : nat) :
  tag < length registry →
  ∃ st, Tag.collect registry (S (length registry)) tag ([], []) = Some st
        ∧ tidy registry st.1 ∧ tag ∈ st.1
        ∧ (∀ u, Tag.universal registry = Some u → u ∈ st.1)
        ∧ Tag.dependencies registry includeSelf tag
          = Some (if includeSelf then st.1
                  else filter (λ outputTag, outputTag ≠ tag) st.1, st.2).
Proof.
  intros Htag.
  destruct (collect_sound registry (S (length registry)) 0 ltac:(lia)
              tag ([], []) Htag (tidy_nil registry) ltac:(cbn; lia))
    as (st & Hst & [Htidy _] & Hin).
  exists st. split; [done|]. split; [done|]. split; [done|]. split.
  - intros u Hu.
    eapply (collect_universal registry (S (length registry)) tag u ([], []));
      [done|apply tidy_nil|cbn; lia|done..].
  - unfold Tag.dependencies. by rewrite Hst.
Qed.

Lemma dependencies_in_registry
    (registry : list Tag.t) (includeSelf : bool) (tag : nat) :
  tag < length registry →
  ∃ out con,
    Tag.dependencies registry includeSelf tag = Some (out, con)
    ∧ ∀ r, r ∈ out → r < length registry.
Proof.
  intros Htag.
  destruct (dependencies_total registry includeSelf tag Htag)
    as (st & Hst & [_ Hlt] & _ & _ & Hdep).
  eexists _, _. split; [exact Hdep|].
  destruct includeSelf; [done|].
  intros r [_ Hr]%list_elem_of_filter. by apply Hlt.
Qed.

(** C6: [dependencies] returns for every registry and every tag of it,
    cycles and unresolved names included; the result has no duplicates and
    holds tags of the registry only (so at most as many as there are);
    a larger bound on the depth of the recursion gives the same result. *)
Theorem dependencies_terminates_duplicate_free
    (registry : list Tag.t) (includeSelf : bool) (tag : nat) :
  tag < length registry →
  ∃ out con,
    Tag.dependencies registry includeSelf tag = Some (out, con)
    ∧ NoDup out
    ∧ (∀ r, r ∈ out → r < length registry)
    ∧ length out ≤ length registry
    ∧ ∀ fuel, length registry < fuel →
        Tag.collect registry fuel tag ([], [])
        = Tag.collect registry (S (length registry)) tag ([], []).
Proof.
  intros Htag.
  destruct (dependencies_total registry includeSelf tag Htag)
    as (st & Hst & Htidy & _ & _ & Hdep).
  assert (tidy registry (if includeSelf then st.1
            else filter (λ outputTag, outputTag ≠ tag) st.1)) as Hout.
  { destruct includeSelf; [done|]. destruct Htidy as [Hnd Hlt]. split.
    - by apply NoDup_filter.
    - intros r [_ Hr]%list_elem_of_filter. by apply Hlt. }
  eexists _, _. split; [exact Hdep|].
  split; [apply Hout|]. split; [apply Hout|].
  split; [by apply tidy_length|].
  intros fuel Hfuel. rewrite Hst.
  eapply collect_more; [|exact Hst]. lia.
Qed.

(** Tag [A] of the cyclic registry. *)
Lemma dependencies_terminates_duplicate_free_witness :
  ∃ out con,
    Tag.dependencies registry_cycle true 0 = Some (out, con)
    ∧ NoDup out
    ∧ (∀ r, r ∈ out → r < length registry_cycle)
    ∧ length out ≤ length registry_cycle
    ∧ ∀ fuel, length registry_cycle < fuel →
        Tag.collect registry_cycle fuel 0 ([], [])
        = Tag.collect registry_cycle (S (length registry_cycle)) 0 ([], []).
Proof.
  apply (dependencies_terminates_duplicate_free registry_cycle true 0).
  cbn. lia.
Defined.

(** The results on the cyclic registry: each tag once, and the warning for
    the name [Z]. *)
Example dependencies_cycle :
  Tag.dependencies registry_cycle true 0
  = Some ([0; 1],
          [(LevelWarn,
            "Error getting required tag " +:+ quoted "Z" +:+ " for tag "
            +:+ quoted "A" +:+ ".")])
  ∧ Tag.dependencies registry_cycle false 1 = Some ([0], [(LevelWarn,
            "Error getting required tag " +:+ quoted "Z" +:+ " for tag "
            +:+ quoted "A" +:+ ".")]).
Proof. split; reflexivity. Qed.

(** [universal] finds a tag exactly when some tag of the registry is named
    [REQUIRED]; it is then the first of that name. *)
Lemma universal_iff_defined (registry : list Tag.t) :
  (∃ r, r < length registry ∧ Tag.nameOf registry r = Some "REQUIRED")
  ↔ ∃ u, Tag.universal registry = Some u.
Proof.
  unfold Tag.universal. split.
  - intros (r & Hr & Hname).
    destruct (Tag.find registry (Some "REQUIRED")) as [u|] eqn:Hfind; [eauto|].
    by destruct (find_None registry _ r Hfind Hr).
  - intros [u Hu]. exists u. by apply find_Some.
Qed.

(** C5, as stated, fails when [T] is the tag [REQUIRED] itself: the result
    of [dependencies(T, false)] then holds no tag at all, so it does not
    hold the tag named [REQUIRED], which exists. *)
Lemma required_tag_missing_from_its_own_exclusive_result :
  Tag.universal registry_required_only = Some 0
  ∧ Tag.nameOf registry_required_only 0 = Some "REQUIRED"
  ∧ Tag.dependencies registry_required_only false 0 = Some ([], [])
  ∧ ¬ ∃ out con,
        Tag.dependencies registry_required_only false 0 = Some (out, con)
        ∧ occurrences 0 out = 1.
Proof.
  repeat split. intros (out & con & Hdep & Hocc).
  vm_compute in Hdep. injection Hdep as <- <-. discriminate.
Qed.

(** C5 (amended): [dependencies(T, true)] holds [T];
    [dependencies(T, false)] is that result without [T] and does not hold
    [T]; when a tag named [REQUIRED] exists, the first result holds it
    exactly once, and the second holds it exactly once unless [T] is that
    tag, in which case it does not hold it. *)
Theorem dependencies_self_and_universal (registry : list Tag.t) (tag : nat) :
  tag < length registry →
  ∃ incl excl con con',
    Tag.dependencies registry true tag = Some (incl, con)
    ∧ Tag.dependencies registry false tag = Some (excl, con')
    ∧ tag ∈ incl
    ∧ (tag ∉ excl)
    ∧ excl = filter (λ r, r ≠ tag) incl
    ∧ ∀ u, Tag.universal registry = Some u →
        occurrences u incl = 1
        ∧ (u ≠ tag → occurrences u excl = 1)
        ∧ (u = tag → occurrences u excl = 0).
Proof.
  intros Htag.
  destruct (dependencies_total registry true tag Htag)
    as (st & Hst & [Hnd Hlt] & Hin & Huniv & Hdep).
  destruct (dependencies_total registry false tag Htag)
    as (st' & Hst' & _ & _ & _ & Hdep').
  rewrite Hst in Hst'. injection Hst' as <-.
  eexists _, _, _, _. split; [exact Hdep|]. split; [exact Hdep'|].
  split; [done|].
  assert (tag ∉ filter (λ r, r ≠ tag) st.1) as Hout.
  { by intros [? _]%list_elem_of_filter. }
  split; [done|]. split; [done|].
  intros u Hu. specialize (Huniv u Hu). split; [|split].
  - by apply occurrences_NoDup.
  - intros Hne. apply occurrences_NoDup; [by apply NoDup_filter|].
    by apply list_elem_of_filter.
  - intros ->. by apply occurrences_not_elem.
Qed.

(** Tag [A] of a registry that holds [REQUIRED]: both results hold
    [REQUIRED] once, and only the first holds [A]. *)
Lemma dependencies_self_and_universal_witness :
  ∃ incl excl con con',
    Tag.dependencies registry_with_required true 0 = Some (incl, con)
    ∧ Tag.dependencies registry_with_required false 0 = Some (excl, con')
    ∧ 0 ∈ incl
    ∧ (0 ∉ excl)
    ∧ occurrences 2 incl = 1
    ∧ occurrences 2 excl = 1.
Proof.
  destruct (dependencies_self_and_universal registry_with_required 0)
    as (incl & excl & con & con' & Hi & He & Hin & Hout & _ & Hu);
    [cbn; lia|].
  destruct (Hu 2 eq_refl) as (H1 & H2 & _).
  exists incl, excl, con, con'. repeat (split; [done|]). by apply H2.
Defined.

(** The two results for tag [A] of that registry. *)
Example dependencies_with_required :
  Tag.dependencies registry_with_required true 0 = Some ([0; 1; 2], [])
  ∧ Tag.dependencies registry_with_required false 0 = Some ([1; 2], [])
  ∧ Tag.dependencies registry_with_required false 2 = Some ([], []).
Proof. repeat split; reflexivity. Qed.

(** ** Comments as the constructor builds them *)

Lemma split_runs_word (w rest : string) :
  no_space w = true →
  JsString.split_runs JsString.is_space false (w +:+ String " " rest)
  = w :: JsString.split_runs JsString.is_space true rest.
Proof.
  induction w as [|c w IH]; intros Hw.
  - reflexivity.
  - cbn in Hw. apply andb_prop in Hw as [Hc Hw].
    rewrite app_String. cbn [JsString.split_runs].
    apply negb_true_iff in Hc. rewrite Hc. by rewrite IH.
Qed.

Lemma split_runs_after_run (w rest : string) :
  is_word w = true →
  JsString.split_runs JsString.is_space true (w +:+ rest)
  = JsString.split_runs JsString.is_space false (w +:+ rest).
Proof.
  unfold is_word. destruct w as [|c w]; [done|]. cbn. intros Hw.
  apply andb_prop in Hw as [Hc _]. apply negb_true_iff in Hc.
  rewrite app_String. cbn [JsString.split_runs]. by rewrite Hc.
Qed.

Lemma split_runs_spaced (in_run : bool) (ws : list string) :
  Forall (λ w, is_word w = true) ws →
  JsString.split_runs JsString.is_space in_run (spaced ws) = ws ++ [""].
Proof.
  intros Hws. revert in_run.
  induction Hws as [|w ws Hw Hws IH]; intros in_run; [by destruct in_run|].
  cbn [spaced].
  assert (JsString.split_runs JsString.is_space false
            (w +:+ " " +:+ spaced ws) = (w :: ws) ++ [""]) as H.
  { change (" " +:+ spaced ws) with (String " " (spaced ws)).
    rewrite split_runs_word; [by rewrite IH|].
    unfold is_word in Hw. by apply andb_prop in Hw as [_ ?]. }
  destruct in_run; [|done]. by rewrite split_runs_after_run.
Qed.

(** Splitting a comment the constructor built gives back its words and a
    last empty piece. *)
Lemma split_spaced (ws : list string) :
  Forall (λ w, is_word w = true) ws →
  JsString.split JsString.is_space (spaced ws) = ws ++ [""].
Proof. apply split_runs_spaced. Qed.

(** ** [tagLines]: what one iteration does *)

Section TagLinesSteps.

Variable registry : list Tag.t.

Lemma tagLines_step_plain (st : Script.TagState) (line : Line.t) :
  JsString.split JsString.is_space (Line.comment line) !! 0 ≠ Some "UTAGSET" →
  Script.tagLines_step registry st line
  = Script.mkTagState
      (Script.visited st ++ [Script.attach (Script.multilineTags st) line])
      (Script.multilineTags st) (Script.tl_console st).
Proof.
  intros H. unfold Script.tagLines_step.
  by rewrite bool_decide_eq_false_2.
Qed.

Lemma tagLines_step_unknown (st : Script.TagState) (line : Line.t) :
  let comment := JsString.split JsString.is_space (Line.comment line) in
  comment !! 0 = Some "UTAGSET" →
  Tag.find registry (comment !! 2) = None →
  Script.tagLines_step registry st line
  = Script.mkTagState (Script.visited st ++ [line]) (Script.multilineTags st)
      (Script.tl_console st ++ [(LevelError,
         "Failed to set line tag " +:+ quoted (js_str (comment !! 2))
         +:+ ".")]).
Proof.
  intros comment Hop Hfind. unfold Script.tagLines_step. fold comment.
  rewrite Hop, Hfind. by rewrite bool_decide_eq_true_2 by done.
Qed.

Lemma tagLines_step_START (st : Script.TagState) (line : Line.t) (x : nat) :
  let comment := JsString.split JsString.is_space (Line.comment line) in
  comment !! 0 = Some "UTAGSET" →
  comment !! 1 = Some "START" →
  Tag.find registry (comment !! 2) = Some x →
  let opened :=
    Script.multilineTags st ++ [LineTag.mk x (LineTag.Mode (comment !! 3))] in
  Script.tagLines_step registry st line
  = Script.mkTagState (Script.visited st ++ [Script.attach opened line])
      opened (Script.tl_console st).
Proof.
  intros comment Hop Hprop Hfind. unfold Script.tagLines_step. fold comment.
  rewrite Hop, Hprop, Hfind. by rewrite !bool_decide_eq_true_2 by done.
Qed.

Lemma tagLines_step_END (st : Script.TagState) (line : Line.t) (x : nat) :
  let comment := JsString.split JsString.is_space (Line.comment line) in
  comment !! 0 = Some "UTAGSET" →
  comment !! 1 = Some "END" →
  Tag.find registry (comment !! 2) = Some x →
  let remaining :=
    filter (λ lineTag, Tag.nameOf registry (LineTag.tag lineTag)
                       ≠ Tag.nameOf registry x)
      (Script.multilineTags st) in
  Script.tagLines_step registry st line
  = Script.mkTagState
      (Script.visited st
       ++ [Script.attach
             (LineTag.mk x (LineTag.Mode (comment !! 3)) :: remaining) line])
      remaining (Script.tl_console st).
Proof.
  intros comment Hop Hprop Hfind. unfold Script.tagLines_step. fold comment.
  rewrite Hop, Hprop, Hfind.
  rewrite bool_decide_eq_true_2 by done.
  rewrite bool_decide_eq_false_2 by done.
  by rewrite bool_decide_eq_true_2 by done.
Qed.

Lemma tagLines_step_LINE (st : Script.TagState) (line : Line.t) (x : nat) :
  let comment := JsString.split JsString.is_space (Line.comment line) in
  comment !! 0 = Some "UTAGSET" →
  comment !! 1 = Some "LINE" →
  Tag.find registry (comment !! 2) = Some x →
  Script.tagLines_step registry st line
  = Script.mkTagState
      (Script.visited st
       ++ [Script.attach
             (LineTag.mk x (LineTag.Mode (comment !! 3))
              :: Script.multilineTags st) line])
      (Script.multilineTags st) (Script.tl_console st).
Proof.
  intros comment Hop Hprop Hfind. unfold Script.tagLines_step. fold comment.
  rewrite Hop, Hprop, Hfind.
  rewrite bool_decide_eq_true_2 by done.
  rewrite !bool_decide_eq_false_2 by done.
  by rewrite bool_decide_eq_true_2 by done.
Qed.

(** Whenever the iteration does not end at the [continue] of the
    unknown-tag branch, every entry left on the open-block stack is among
    the associations of the line just visited. *)
Lemma tagLines_step_attaches (st : Script.TagState) (line : Line.t) :
  let comment := JsString.split JsString.is_space (Line.comment line) in
  comment !! 0 ≠ Some "UTAGSET" ∨ is_Some (Tag.find registry (comment !! 2)) →
  ∃ line', last (Script.visited (Script.tagLines_step registry st line))
           = Some line'
    ∧ Line.code line' = Line.code line
    ∧ ∀ lineTag,
        lineTag ∈ Script.multilineTags (Script.tagLines_step registry st line) →
        lineTag ∈ Line.tags line'.
Proof.
  intros comment Hok. unfold Script.tagLines_step. fold comment.
  case_bool_decide as Hop.
  - destruct Hok as [Hok|[x Hx]]; [done|]. rewrite Hx.
    repeat case_bool_decide; cbn [Script.visited Script.multilineTags];
      rewrite last_snoc; eexists; (split; [done|]); (split; [done|]);
      intros lt Hlt; cbn; apply elem_of_app; right; try done.
    by right.
    by right.
  - cbn. rewrite last_snoc. eexists. split; [done|]. split; [done|].
    intros lt Hlt. cbn. apply elem_of_app. by right.
Qed.

End TagLinesSteps.

(** ** Blocks *)

Lemma includeLine_single (registry : list Tag.t) (names : list jsval)
    (c k : string) (x : nat) (m : ModeValue) :
  Script.includeLine registry names (Line.mk c k [LineTag.mk x m])
  = includes names (Tag.nameOf registry x).
Proof.
  unfold Script.includeLine. cbn.
  by destruct (LineTag.is_AND m), (includes names _).
Qed.

(** C8 (amended): in a script whose registry holds a tag named [X], a
    [UTAGSET START X OR] line, a code-only line and a [UTAGSET END X OR]
    line all receive the association [(X, OR)]; compiled with a set that
    holds [X] all three are emitted, and compiled with a set that does not
    hold [X] none is. *)
Theorem block_tagging_is_inclusive
    (registry : list Tag.t) (X : string) (x : nat) (c1 c2 c3 : string)
    (names : list jsval) (uglified : bool) :
  is_word X = true →
  Tag.find registry (Some X) = Some x →
  let k1 := spaced ["UTAGSET"; "START"; X; "OR"] in
  let k3 := spaced ["UTAGSET"; "END"; X; "OR"] in
  let s := Script.mk [Line.new c1 k1; Line.new c2 ""; Line.new c3 k3] registry in
  let block := [LineTag.mk x (LineTag.Mode (Some "OR"))] in
  let s' := (Script.tagLines s).1 in
  Script.lines s'
  = [Line.mk c1 k1 block; Line.mk c2 "" block; Line.mk c3 k3 block]
  ∧ (Some X ∈ names →
       Forall (λ l, Script.includeLine registry names l = true) (Script.lines s')
       ∧ Script.selected s' names uglified
         = Script.render uglified (Line.new c1 k1)
           +:+ Script.render uglified (Line.new c2 "")
           +:+ Script.render uglified (Line.new c3 k3))
  ∧ (Some X ∉ names →
       Forall (λ l, Script.includeLine registry names l = false) (Script.lines s')
       ∧ Script.selected s' names uglified = "").
Proof.
  intros HX Hfind k1 k3 s block s'.
  pose proof (find_Some registry _ _ Hfind) as [_ Hname].
  assert (JsString.split JsString.is_space k1
          = ["UTAGSET"; "START"; X; "OR"; ""]) as Hk1.
  { unfold k1. rewrite split_spaced; [done|]. by repeat constructor. }
  assert (JsString.split JsString.is_space k3
          = ["UTAGSET"; "END"; X; "OR"; ""]) as Hk3.
  { unfold k3. rewrite split_spaced; [done|]. by repeat constructor. }
  clearbody k1 k3.
  assert (Script.lines s'
          = [Line.mk c1 k1 block; Line.mk c2 "" block; Line.mk c3 k3 block])
    as Hlines.
  { unfold s', Script.tagLines, Script.tagLines_run, s.
    cbn [Script.lines Script.tags fst foldl].
    rewrite (tagLines_step_START registry _ (Line.new c1 k1) x);
      [|cbn [Line.new Line.comment]; by rewrite Hk1..].
    rewrite (tagLines_step_plain registry _ (Line.new c2 "")); [|done].
    rewrite (tagLines_step_END registry _ (Line.new c3 k3) x);
      [|cbn [Line.new Line.comment]; by rewrite Hk3..].
    cbn [Line.new Line.comment]. rewrite Hk1, Hk3.
    cbn [Script.visited Script.multilineTags app].
    rewrite filter_cons. cbn [LineTag.tag].
    rewrite decide_False by (intros H; by apply H).
    rewrite filter_nil. reflexivity. }
  split; [exact Hlines|].
  rewrite selected_emit, Hlines. cbn [Script.tags s' fst Script.tagLines s].
  rewrite !emit_cons, emit_nil. unfold emit_line.
  rewrite !Forall_cons, Forall_nil.
  unfold block. rewrite !includeLine_single, Hname. unfold includes.
  split; intros Hin.
  - rewrite !bool_decide_eq_true_2 by done.
    split; [done|]. by rewrite app_empty_r.
  - rewrite !bool_decide_eq_false_2 by done. done.
Qed.

(** C8, as stated, fails: the script whose lines are exactly the two
    marker lines and the code-only line has no tag [X] in its registry, so
    [tagLines] attaches nothing and compiling with [X] emits none of the
    three lines. *)
Lemma block_of_undefined_tag_is_not_emitted :
  Script.lines (Script.new text_block_undefined)
  = [ Line.new "a(); " (spaced ["UTAGSET"; "START"; "X"; "OR"]);
      Line.new "y=2; " "";
      Line.new "b(); " (spaced ["UTAGSET"; "END"; "X"; "OR"]) ]
  ∧ Script.tags (prepared text_block_undefined) = []
  ∧ Forall (λ l, Script.includeLine [] [Some "X"] l = false)
      (Script.lines (prepared text_block_undefined))
  ∧ Script.compile Some Some (prepared text_block_undefined) [Some "X"]
      false false = Some ""
  ∧ Script.compile Some Some (prepared text_block_undefined) [Some "X"]
      false false
    ≠ Some (foldr (λ l out, Script.render false l +:+ out) ""
              (Script.lines (prepared text_block_undefined))).
Proof.
  split; [reflexivity|]. split; [reflexivity|]. split; [by repeat constructor|].
  split; [reflexivity|]. vm_compute. discriminate.
Qed.

(** The block of [X] in a registry that holds [X]. *)
Lemma block_tagging_is_inclusive_witness :
  is_word "X" = true
  ∧ Tag.find [Tag.new (Some "X")] (Some "X") = Some 0
  ∧ Script.selected
      (Script.tagLines
         (Script.mk
            [ Line.new "a(); " (spaced ["UTAGSET"; "START"; "X"; "OR"]);
              Line.new "y=2; " "";
              Line.new "b(); " (spaced ["UTAGSET"; "END"; "X"; "OR"]) ]
            [Tag.new (Some "X")])).1
      [Some "X"] true
    = Script.render true (Line.new "a(); " (spaced ["UTAGSET"; "START"; "X"; "OR"]))
      +:+ Script.render true (Line.new "y=2; " "")
      +:+ Script.render true (Line.new "b(); " (spaced ["UTAGSET"; "END"; "X"; "OR"])).
Proof.
  split; [reflexivity|]. split; [reflexivity|].
  pose proof (block_tagging_is_inclusive [Tag.new (Some "X")] "X" 0
                "a(); " "y=2; " "b(); " [Some "X"] true eq_refl eq_refl) as H.
  cbv zeta in H. destruct H as (_ & H & _).
  apply H. by left.
Defined.

(** The same three lines after a [UTAGDEF] line for [X], from the text to
    the output. *)
Example block_of_defined_tag_is_emitted (minify format : string → option string) :
  Script.compile minify format (prepared text_block_defined) [Some "X"]
    false false
  = Some ("a();  // UTAGSET START X OR " +:+ newline +:+ "y=2; " +:+ newline
          +:+ "b();  // UTAGSET END X OR " +:+ newline)
  ∧ Script.compile minify format (prepared text_block_defined) [Some "Y"]
      false false = Some "".
Proof. split; reflexivity. Qed.

(** C3 fails on the code: inside the open block of [X], the line whose
    directive names the unknown tag [NOPE] is left without any
    association, although [(X, OR)] is on the open-block stack before and
    after it; the code of that line is then missing from the output for
    [X]. *)
Theorem unknown_tag_line_misses_open_block :
  let s := (Script.getTags (Script.new text_unknown_in_block)).1 in
  let line := Line.new "a(); " (spaced ["UTAGSET"; "LINE"; "NOPE"; "OR"]) in
  let before :=
    foldl (Script.tagLines_step (Script.tags s)) (Script.mkTagState [] [] [])
      (take 2 (Script.lines s)) in
  let after := Script.tagLines_step (Script.tags s) before line in
  Script.lines s !! 2 = Some line
  ∧ Script.multilineTags before = [LineTag.mk 0 (LineTag.Mode (Some "OR"))]
  ∧ Script.multilineTags after = [LineTag.mk 0 (LineTag.Mode (Some "OR"))]
  ∧ last (Script.visited after) = Some line
  ∧ Script.tl_console after
    = [(LevelError, "Failed to set line tag " +:+ quoted "NOPE" +:+ ".")]
  ∧ Script.lines (Script.tagLines s).1 !! 2 = Some line
  ∧ Script.lines (Script.tagLines s).1 !! 3
    = Some (Line.mk "b(); " "" [LineTag.mk 0 (LineTag.Mode (Some "OR"))])
  ∧ ∀ minify format,
      Script.compile minify format (Script.tagLines s).1 [Some "X"] false false
      = Some ("// UTAGSET START X OR " +:+ newline +:+ "b(); " +:+ newline
              +:+ "// UTAGSET END X OR " +:+ newline).
Proof. repeat split; reflexivity. Qed.

(** ** [getTags]: the [REQU] property *)

Section RequireDirective.

Variable registry : list Tag.t.



Lemma findOrCreate_required (n : jsval) (r : nat) :
  Tag.requiredOf (Script.findOrCreate registry n).1 r
  = Tag.requiredOf registry r.
Proof.
  unfold Script.findOrCreate, Tag.requiredOf.
  destruct (Tag.find registry n) as [x|]; cbn; [done|].
  destruct (decide (r < length registry)) as [Hr|Hr].
  - by rewrite lookup_app_l.
  - rewrite (lookup_ge_None_2 registry r) by lia.
    destruct (decide (r = length registry)) as [->|Hne].
    + by rewrite list_lookup_middle.
    + rewrite lookup_ge_None_2; [done|]. rewrite length_app. cbn. lia.
Qed.

End RequireDirective.



(** Tags are only created for the TAGNAME of a [UTAGDEF] line. *)
Lemma getTags_step_names (st : list Tag.t * Console) (line : Line.t)
    (n : jsval) :
  let comment := JsString.split JsString.is_space (Line.comment line) in
  n ∈ Tag.name <$> (Script.getTags_step st line).1 →
  n ∈ Tag.name <$> st.1 ∨ (comment !! 0 = Some "UTAGDEF" ∧ n = comment !! 2).
Proof.
  intros comment. unfold Script.getTags_step. fold comment.
  case_bool_decide as Hop; [by left|].
  assert (n ∈ Tag.name <$> (Script.findOrCreate st.1 (comment !! 2)).1 →
          n ∈ Tag.name <$> st.1 ∨ (comment !! 0 = Some "UTAGDEF" ∧ n = comment !! 2))
    as Hcreate.
  { unfold Script.findOrCreate. destruct (Tag.find st.1 _); cbn; [by left|].
    rewrite fmap_app. intros [H|H]%elem_of_app; [by left|].
    apply list_elem_of_singleton in H. by right. }
  assert (∀ (f : Tag.t → Tag.t) (i : nat) (l : list Tag.t),
            (∀ tg, Tag.name (f tg) = Tag.name tg) →
            Tag.name <$> alter f i l = Tag.name <$> l) as Halter.
  { intros f i l Hf. rewrite (list_fmap_alter Tag.name f id)
      by (apply Forall_true; intros tg; apply Hf).
    by rewrite list_alter_id. }
  destruct (Script.findOrCreate st.1 (comment !! 2)) as [registry tag].
  cbn [fst] in Hcreate.
  repeat case_bool_decide; try destruct (Tag.find registry _);
    cbn [fst]; rewrite ?Halter by done; exact Hcreate.
Qed.

Lemma getTags_names (s : Script.t) (n : jsval) :
  n ∈ Tag.name <$> Script.tags (Script.getTags s).1 →
  n ∈ Tag.name <$> Script.tags s
  ∨ ∃ line, line ∈ Script.lines s
      ∧ JsString.split JsString.is_space (Line.comment line) !! 0
        = Some "UTAGDEF"
      ∧ n = JsString.split JsString.is_space (Line.comment line) !! 2.
Proof.
  unfold Script.getTags. cbn [fst Script.tags].
  generalize (@nil (Level * string)).
  generalize (Script.tags s) as registry.
  induction (Script.lines s) as [|line ls IH] using rev_ind;
    intros registry con; [by left|].
  rewrite foldl_snoc. intros Hn.
  apply getTags_step_names in Hn as [Hn|[Hop Hn]].
  - apply IH in Hn as [Hn|(l & Hl & Hop & Hn)]; [by left|].
    right. exists l. split; [|done]. apply elem_of_app. by left.
  - right. exists line. split; [|done]. apply elem_of_app. right. by left.
Qed.

(** A name that no [UTAGDEF] line defines is the name of no tag of the
    registry that [getTags] builds from a fresh script, and so of no tag
    that [dependencies] returns. *)
Lemma never_defined_never_a_dependency (text : string) (D : string)
    (includeSelf : bool) (tag : nat) :
  let s := (Script.getTags (Script.new text)).1 in
  (∀ line, line ∈ Script.lines (Script.new text) →
     JsString.split JsString.is_space (Line.comment line) !! 0 = Some "UTAGDEF" →
     JsString.split JsString.is_space (Line.comment line) !! 2 ≠ Some D) →
  Tag.find (Script.tags s) (Some D) = None
  ∧ (tag < length (Script.tags s) →
     ∃ out con,
       Tag.dependencies (Script.tags s) includeSelf tag = Some (out, con)
       ∧ ∀ r, r ∈ out → Tag.nameOf (Script.tags s) r ≠ Some D).
Proof.
  intros s Hlines.
  assert (Tag.find (Script.tags s) (Some D) = None) as Hnone.
  { destruct (Tag.find (Script.tags s) (Some D)) as [r|] eqn:Hfind; [|done].
    exfalso. apply find_Some in Hfind as [Hr Hname].
    assert (Some D ∈ Tag.name <$> Script.tags s) as Hin.
    { apply list_elem_of_fmap. unfold Tag.nameOf in Hname.
      destruct (Script.tags s !! r) as [tg|] eqn:Htg; [|done].
      exists tg. split; [done|]. apply list_elem_of_lookup. eauto. }
    apply getTags_names in Hin as [Hin|(line & Hl & Hop & Hn)].
    - cbn in Hin. by apply elem_of_nil in Hin.
    - by apply (Hlines line Hl Hop). }
  split; [done|]. intros Htag.
  destruct (dependencies_in_registry _ includeSelf tag Htag)
    as (out' & con' & Hdep & Hin).
  exists out', con'. split; [done|].
  intros r Hr. apply find_None; [done|]. by apply Hin.
Qed.

(** [getTags] on three lines, from the text. *)
Example getTags_requirements :
  Script.tags (Script.getTags (Script.new text_requirements)).1
  = [ Tag.mk (Some "A") "" 0 [] "";
      Tag.mk (Some "B") "second" 0 [Some "A"] "" ]
  ∧ (Script.getTags (Script.new text_requirements)).2
    = [(LevelWarn, "A is unable to require tag " +:+ quoted "B" +:+ ".")]
  ∧ Tag.dependencies
      (Script.tags (Script.getTags (Script.new text_requirements)).1) true 0
    = Some ([0], [])
  ∧ Tag.dependencies
      (Script.tags (Script.getTags (Script.new text_requirements)).1) true 1
    = Some ([1; 0], []).
Proof. repeat split; reflexivity. Qed.

(** ** [measureTags] *)

Section SameGraph.

Variables reg reg' : list Tag.t.
Hypothesis Hsame : same_graph reg reg'.

Lemma same_graph_length : length reg = length reg'.
Proof.
  destruct Hsame as [Hn _].
  by rewrite <- (length_fmap Tag.name reg), Hn, length_fmap.
Qed.

Lemma same_graph_nameOf (r : nat) : Tag.nameOf reg r = Tag.nameOf reg' r.
Proof.
  destruct Hsame as [Hn _]. unfold Tag.nameOf.
  assert ((Tag.name <$> reg) !! r = (Tag.name <$> reg') !! r) as H
    by by rewrite Hn.
  rewrite !list_lookup_fmap in H.
  destruct (reg !! r), (reg' !! r); cbn in H; congruence.
Qed.

Lemma same_graph_requiredOf (r : nat) :
  Tag.requiredOf reg r = Tag.requiredOf reg' r.
Proof.
  destruct Hsame as [_ Hq]. unfold Tag.requiredOf.
  assert ((Tag.requiredTagNames <$> reg) !! r
          = (Tag.requiredTagNames <$> reg') !! r) as H by by rewrite Hq.
  rewrite !list_lookup_fmap in H.
  destruct (reg !! r), (reg' !! r); cbn in H; congruence.
Qed.

Lemma same_graph_find (n : jsval) : Tag.find reg n = Tag.find reg' n.
Proof.
  destruct Hsame as [Hn _]. unfold Tag.find.
  assert (∀ l : list Tag.t,
            fst <$> list_find (λ tg, Tag.name tg = n) l
            = fst <$> list_find (λ m, m = n) (Tag.name <$> l)) as H.
  { intros l. rewrite list_find_fmap.
    by destruct (list_find _ l) as [[??]|]. }
  by rewrite !H, Hn.
Qed.

Lemma same_graph_requireAll f (a : nat) (names : list jsval) st :
  Tag.requireAll reg f a names st = Tag.requireAll reg' f a names st.
Proof.
  revert st. induction names as [|n names IH]; intros st; [done|].
  cbn [Tag.requireAll]. unfold Tag.toString.
  rewrite same_graph_find, same_graph_nameOf.
  destruct (Tag.find reg' n) as [r|]; [|by rewrite IH].
  destruct (f r st) as [st1|]; [|done]. cbn. apply IH.
Qed.

Lemma same_graph_drain f g (toAdd : list nat) st :
  (∀ r st, f r st = g r st) →
  Tag.drain reg f toAdd st = Tag.drain reg' g toAdd st.
Proof.
  intros Hfg. revert st. induction toAdd as [|a toAdd IH]; intros st; [done|].
  cbn [Tag.drain]. case_bool_decide; [by apply IH|].
  rewrite same_graph_requireAll, same_graph_requiredOf.
  assert (∀ names st1, Tag.requireAll reg' f a names st1
                       = Tag.requireAll reg' g a names st1) as Hreq.
  { intros names. induction names as [|n names IHn]; intros st1; [done|].
    cbn [Tag.requireAll]. destruct (Tag.find reg' n) as [r|]; [|apply IHn].
    rewrite Hfg. destruct (g r st1) as [st2|]; [|done]. cbn. apply IHn. }
  rewrite Hreq.
  destruct (Tag.requireAll reg' g a _ _) as [st1|]; [|done]. cbn. apply IH.
Qed.

Lemma same_graph_collect (fuel : nat) (tag : nat) st :
  Tag.collect reg fuel tag st = Tag.collect reg' fuel tag st.
Proof.
  revert tag st. induction fuel as [|fuel IH]; intros tag st; [done|].
  cbn [Tag.collect]. unfold Tag.universal. rewrite same_graph_find.
  by apply same_graph_drain.
Qed.

Lemma same_graph_dependencies (includeSelf : bool) (tag : nat) :
  Tag.dependencies reg includeSelf tag = Tag.dependencies reg' includeSelf tag.
Proof.
  unfold Tag.dependencies.
  by rewrite same_graph_length, same_graph_collect.
Qed.

Lemma same_graph_evaluate (names : list jsval) (lts : list LineTag.t)
    (b : bool) :
  Script.evaluate reg names lts b = Script.evaluate reg' names lts b.
Proof.
  revert b. induction lts as [|lt lts IH]; intros b; [done|].
  cbn [Script.evaluate]. rewrite same_graph_nameOf.
  destruct (LineTag.is_AND _), (includes names _); by rewrite ?IH.
Qed.

Lemma same_graph_emit (names : list jsval) (u : bool) (ls : list Line.t) :
  emit reg names u ls = emit reg' names u ls.
Proof.
  induction ls as [|l ls IH]; [done|]. rewrite !emit_cons, IH.
  unfold emit_line, Script.includeLine. by rewrite same_graph_evaluate.
Qed.

Lemma same_graph_namesOf (refs : list nat) :
  Script.namesOf reg refs = Script.namesOf reg' refs.
Proof.
  unfold Script.namesOf. apply list_fmap_ext. intros i r _.
  apply same_graph_nameOf.
Qed.

End SameGraph.

Lemma same_graph_refl (reg : list Tag.t) : same_graph reg reg.
Proof. by split. Qed.

Lemma same_graph_set_size (reg reg' : list Tag.t) (z : Z) (i : nat) :
  same_graph reg reg' → same_graph reg (alter (Script.set_size z) i reg').
Proof.
  intros [Hn Hq]. split.
  - rewrite Hn. rewrite (list_fmap_alter Tag.name (Script.set_size z) id)
      by by apply Forall_true.
    by rewrite list_alter_id.
  - rewrite Hq.
    rewrite (list_fmap_alter Tag.requiredTagNames (Script.set_size z) id)
      by by apply Forall_true.
    by rewrite list_alter_id.
Qed.

Section Measure.

Variable minify : string → option string.
Variable format : string → option string.

Lemma measureTags_step_measured (s : Script.t) (con : Console) (tag : nat) :
  fst <$> Script.measureTags_step minify format (s, con) tag
  = (λ z, Script.mk (Script.lines s)
            (alter (Script.set_size z) tag (Script.tags s)))
    <$> measured minify format s tag.
Proof.
  unfold Script.measureTags_step, measured. cbn [fst snd].
  destruct (Tag.dependencies (Script.tags s) true tag) as [i|]; [|done].
  cbn -[Script.compile Tag.dependencies].
  destruct (Script.compile minify format s _ true false) as [oi|]; [|done].
  cbn -[Script.compile Tag.dependencies].
  destruct (Tag.dependencies (Script.tags s) false tag) as [e|]; [|done].
  cbn -[Script.compile Tag.dependencies].
  by destruct (Script.compile minify format s _ true false) as [oe|].
Qed.

Variable s0 : Script.t.

Lemma sizes_only_start : sizes_only s0 s0.
Proof.
  split; [done|]. apply Forall2_same_length_lookup_2; [done|].
  intros i tg tg' H1 H2. rewrite H1 in H2. injection H2 as <-.
  exists (Tag.size tg). by destruct tg.
Qed.

Lemma sizes_only_same_graph (s : Script.t) :
  sizes_only s0 s → same_graph (Script.tags s0) (Script.tags s).
Proof.
  intros [_ H]. split.
  - apply list_eq. intros i. rewrite !list_lookup_fmap.
    destruct (Script.tags s0 !! i) as [tg0|] eqn:H0.
    + destruct (Forall2_lookup_l _ _ _ _ _ H H0) as (tg & -> & [z ->]). done.
    + apply lookup_ge_None in H0. rewrite (Forall2_length _ _ _ H) in H0.
      apply lookup_ge_None in H0. by rewrite H0.
  - apply list_eq. intros i. rewrite !list_lookup_fmap.
    destruct (Script.tags s0 !! i) as [tg0|] eqn:H0.
    + destruct (Forall2_lookup_l _ _ _ _ _ H H0) as (tg & -> & [z ->]). done.
    + apply lookup_ge_None in H0. rewrite (Forall2_length _ _ _ H) in H0.
      apply lookup_ge_None in H0. by rewrite H0.
Qed.

Lemma compile_sizes_only (s : Script.t) (refs : list nat) (u b : bool) :
  sizes_only s0 s →
  Script.compile minify format s (Script.namesOf (Script.tags s) refs) u b
  = Script.compile minify format s0
      (Script.namesOf (Script.tags s0) refs) u b.
Proof.
  intros Hs. pose proof (sizes_only_same_graph s Hs) as Hg.
  destruct Hs as [Hl _]. unfold Script.compile.
  rewrite !selected_emit, Hl.
  by rewrite <- (same_graph_namesOf _ _ Hg), <- (same_graph_emit _ _ Hg).
Qed.

Lemma measured_sizes_only (s : Script.t) (tag : nat) :
  sizes_only s0 s → measured minify format s tag = measured minify format s0 tag.
Proof.
  intros Hs. pose proof (sizes_only_same_graph s Hs) as Hg.
  unfold measured.
  rewrite <- !(same_graph_dependencies _ _ Hg).
  destruct (Tag.dependencies (Script.tags s0) true tag) as [i|]; [|done].
  cbn -[Script.compile Tag.dependencies].
  rewrite (compile_sizes_only s i.1 true false Hs).
  destruct (Script.compile minify format s0 _ true false) as [oi|]; [|done].
  cbn -[Script.compile Tag.dependencies].
  destruct (Tag.dependencies (Script.tags s0) false tag) as [e|]; [|done].
  cbn -[Script.compile Tag.dependencies].
  by rewrite (compile_sizes_only s e.1 true false Hs).
Qed.

Lemma measureTags_step_spec (s s1 : Script.t) (con con1 : Console)
    (tag : nat) :
  sizes_only s0 s →
  Script.measureTags_step minify format (s, con) tag = Some (s1, con1) →
  sizes_only s0 s1
  ∧ sized minify format s0 s1 tag
  ∧ ∀ i, sized minify format s0 s i → sized minify format s0 s1 i.
Proof.
  intros Hs Hstep.
  pose proof (measureTags_step_measured s con tag) as Hm.
  rewrite Hstep, (measured_sizes_only s tag Hs) in Hm.
  destruct (measured minify format s0 tag) as [z|] eqn:Hz; cbn in Hm; [|done].
  injection Hm as ->. destruct Hs as [Hl Hr].
  assert (∀ tg0 tg, resized tg0 tg → Script.set_size z tg = Script.set_size z tg0)
    as Hset by (intros ?? [z' ->]; done).
  split; [|split].
  - split; [done|]. cbn. apply Forall2_alter_r; [done|].
    intros tg0 tg _ _ Htg. exists z. by apply Hset.
  - intros tg0 H0. exists z. split; [done|]. cbn.
    rewrite list_lookup_alter_eq.
    destruct (Forall2_lookup_l _ _ _ _ _ Hr H0) as (tg & -> & Htg).
    cbn. f_equal. by apply Hset.
  - intros i Hi tg0 H0. destruct (Hi tg0 H0) as (zi & Hzi & Hlook).
    exists zi. split; [done|]. cbn.
    destruct (decide (tag = i)) as [->|Hne].
    + rewrite list_lookup_alter_eq, Hlook. cbn. f_equal.
      rewrite Hz in Hzi. injection Hzi as ->. done.
    + by rewrite list_lookup_alter_ne.
Qed.

Lemma measureTags_loop_spec (refs : list nat) (s s' : Script.t)
    (con con' : Console) :
  sizes_only s0 s →
  Script.measureTags_loop minify format refs (s, con) = Some (s', con') →
  sizes_only s0 s'
  ∧ (∀ i, i ∈ refs → sized minify format s0 s' i)
  ∧ ∀ i, sized minify format s0 s i → sized minify format s0 s' i.
Proof.
  revert s con. induction refs as [|tag refs IH]; intros s con Hs Hloop.
  - cbn in Hloop. injection Hloop as <- <-. split; [done|]. split; [|done].
    intros i Hi. by apply elem_of_nil in Hi.
  - cbn [Script.measureTags_loop] in Hloop.
    destruct (Script.measureTags_step minify format (s, con) tag)
      as [[s1 con1]|] eqn:Hstep; [|done]. cbn in Hloop.
    destruct (measureTags_step_spec _ _ _ _ _ Hs Hstep) as (Hs1 & Htag & Hkeep).
    destruct (IH _ _ Hs1 Hloop) as (Hs' & Hrefs & Hkeep').
    split; [done|]. split.
    + intros i [->|Hi]%elem_of_cons; [by apply Hkeep'|by apply Hrefs].
    + intros i Hi. by apply Hkeep', Hkeep.
Qed.

(** A size is computed only if the minifier returned for both texts. *)
Lemma measured_handed (tag : nat) (includeSelf : bool)
    (deps : list nat * Console) :
  is_Some (measured minify format s0 tag) →
  Tag.dependencies (Script.tags s0) includeSelf tag = Some deps →
  is_Some (minify (Script.selected s0
                     (Script.namesOf (Script.tags s0) deps.1) true)).
Proof.
  intros [z Hz] Hdeps. unfold measured, Script.compile in Hz.
  destruct (Tag.dependencies (Script.tags s0) true tag) as [incl|] eqn:Hi;
    [|done].
  cbn -[Script.selected Script.namesOf Tag.dependencies] in Hz.
  destruct (minify (Script.selected s0
                      (Script.namesOf (Script.tags s0) incl.1) true))
    as [oi|] eqn:Hoi; [|done].
  cbn -[Script.selected Script.namesOf Tag.dependencies] in Hz.
  destruct (Tag.dependencies (Script.tags s0) false tag) as [excl|] eqn:He;
    [|done].
  cbn -[Script.selected Script.namesOf Tag.dependencies] in Hz.
  destruct (minify (Script.selected s0
                      (Script.namesOf (Script.tags s0) excl.1) true))
    as [oe|] eqn:Hoe; [|done].
  destruct includeSelf.
  - rewrite Hi in Hdeps. injection Hdeps as <-. by rewrite Hoi.
  - rewrite He in Hdeps. injection Hdeps as <-. by rewrite Hoe.
Qed.

Hypothesis minify_handed : ∀ x, handed s0 x → is_Some (minify x).

Lemma measured_total (tag : nat) :
  tag < length (Script.tags s0) → is_Some (measured minify format s0 tag).
Proof.
  intros Htag.
  destruct (dependencies_in_registry _ true tag Htag) as (out & c & Hd & _).
  destruct (dependencies_in_registry _ false tag Htag)
    as (out' & c' & Hd' & _).
  unfold measured, Script.compile. rewrite Hd, Hd'.
  cbn -[Script.selected Script.namesOf].
  destruct (minify_handed (Script.selected s0
              (Script.namesOf (Script.tags s0) out) true)) as [oi ->].
  { by exists tag, true, (out, c). }
  cbn -[Script.selected Script.namesOf].
  destruct (minify_handed (Script.selected s0
              (Script.namesOf (Script.tags s0) out') true)) as [oe ->].
  { by exists tag, false, (out', c'). }
  done.
Qed.

Lemma measureTags_loop_total (refs : list nat) (s : Script.t) (con : Console) :
  sizes_only s0 s →
  Forall (λ tag, tag < length (Script.tags s0)) refs →
  is_Some (Script.measureTags_loop minify format refs (s, con)).
Proof.
  intros Hs Hrefs. revert s con Hs.
  induction Hrefs as [|tag refs Htag Hrefs IH]; intros s con Hs; [done|].
  cbn [Script.measureTags_loop].
  pose proof (measureTags_step_measured s con tag) as Hm.
  rewrite (measured_sizes_only s tag Hs) in Hm.
  destruct (measured_total tag Htag) as [z Hz]. rewrite Hz in Hm.
  destruct (Script.measureTags_step minify format (s, con) tag)
    as [[s1 con1]|] eqn:Hstep; [|done]. cbn.
  apply IH. by eapply measureTags_step_spec.
Qed.

End Measure.

Lemma dependencies_leaf (registry : list Tag.t) (tag : nat) :
  Tag.requiredOf registry tag = [] →
  Tag.universal registry = None →
  Tag.dependencies registry true tag = Some ([tag], [])
  ∧ Tag.dependencies registry false tag = Some ([], []).
Proof.
  intros Hreq Huniv. unfold Tag.dependencies. cbn [Tag.collect].
  rewrite Huniv. cbn [option_list Tag.drain fst snd].
  rewrite bool_decide_eq_false_2 by apply not_elem_of_nil.
  rewrite Hreq. cbn. split; [done|].
  by rewrite decide_False by (intros H; by apply H).
Qed.

(** C2, as stated, fails: [measureTags] compiles with the minifier on.
    With a minifier that drops white space, tag [A] of the example gets the
    size 4, the length of the minified [f();], where the compilations with
    minify and format disabled differ by 28 characters. *)
Lemma measureTags_sizes_are_minified_sizes :
  (Script.tags ∘ fst)
    <$> Script.measureTags (λ x, Some (strip_blanks x)) Some
          (prepared text_one_tag)
  = Some [Tag.mk (Some "A") "first" 4 [] ""]
  ∧ spec_size (λ x, Some (strip_blanks x)) Some (prepared text_one_tag) 0
    = Some 28%Z
  ∧ (Script.measureTags (λ x, Some (strip_blanks x)) Some
       (prepared text_one_tag)
     ≫= λ r, Tag.size <$> Script.tags r.1 !! 0)
    ≠ spec_size (λ x, Some (strip_blanks x)) Some (prepared text_one_tag) 0
  ∧ Script.measureTags (λ _, None) Some (prepared text_one_tag) = None.
Proof.
  split; [reflexivity|]. split; [reflexivity|]. split; [|reflexivity].
  vm_compute. discriminate.
Qed.

(** C2 (amended): [measureTags] computes every tag's size from two
    compilations with the minifier applied and the formatter not applied
    (the default arguments of [compile]): size = length(compile(names of
    dependencies(tag, true))) - length(compile(names of dependencies(tag,
    false))).  It resolves exactly when the minifier returns for each of
    the texts handed to it, the lines selected for these name sets.  For
    a tag with no required tags, in a registry without a tag [REQUIRED],
    the two name sets are [[T.name]] and [[]]. *)
Theorem measureTags_sizes
    (minify format : string → option string) (s : Script.t) :
  (is_Some (Script.measureTags minify format s)
   ↔ ∀ x, handed s x → is_Some (minify x))
  ∧ ∀ s' con, Script.measureTags minify format s = Some (s', con) →
      Script.lines s' = Script.lines s
      ∧ ∀ tag tg, Script.tags s !! tag = Some tg →
          ∃ incl excl oi oe,
            Tag.dependencies (Script.tags s) true tag = Some incl
            ∧ Tag.dependencies (Script.tags s) false tag = Some excl
            ∧ Script.compile minify format s
                (Script.namesOf (Script.tags s) incl.1) true false = Some oi
            ∧ Script.compile minify format s
                (Script.namesOf (Script.tags s) excl.1) true false = Some oe
            ∧ Script.tags s' !! tag
              = Some (Script.set_size
                        (Z.of_nat (String.length oi)
                         - Z.of_nat (String.length oe))%Z tg)
            ∧ (Tag.requiredTagNames tg = [] →
               Tag.universal (Script.tags s) = None →
               Script.compile minify format s [Tag.name tg] true false = Some oi
               ∧ Script.compile minify format s [] true false = Some oe).
Proof.
  split; [split|].
  - intros [[s' con] Hm] x (tag & includeSelf & deps & Htag & Hdeps & ->).
    unfold Script.measureTags in Hm.
    destruct (measureTags_loop_spec minify format s _ _ _ _ _
                (sizes_only_start s) Hm) as (_ & Hsized & _).
    destruct (lookup_lt_is_Some_2 _ _ Htag) as [tg Htg].
    destruct (Hsized tag) with (tg0 := tg) as (z & Hz & _); [|exact Htg|].
    { apply elem_of_seq. lia. }
    apply (measured_handed minify format s tag includeSelf deps); [|done].
    by rewrite Hz.
  - intros Hhanded. unfold Script.measureTags.
    apply (measureTags_loop_total minify format s Hhanded).
    + apply sizes_only_start.
    + apply Forall_forall. intros tag Htag%elem_of_seq. lia.
  - intros s' con Hm. unfold Script.measureTags in Hm.
    destruct (measureTags_loop_spec minify format s _ _ _ _ _
                (sizes_only_start s) Hm) as ([Hl _] & Hsized & _).
    split; [done|]. intros tag tg Htg.
    destruct (Hsized tag) with (tg0 := tg) as (z & Hz & Hlook); [|exact Htg|].
    { apply elem_of_seq. apply lookup_lt_Some in Htg. lia. }
    unfold measured in Hz.
    destruct (Tag.dependencies (Script.tags s) true tag) as [incl|] eqn:Hi;
      [|done].
    cbn -[Script.compile Tag.dependencies] in Hz.
    destruct (Script.compile minify format s
                (Script.namesOf (Script.tags s) incl.1) true false)
      as [oi|] eqn:Hoi; [|done].
    cbn -[Script.compile Tag.dependencies] in Hz.
    destruct (Tag.dependencies (Script.tags s) false tag) as [excl|] eqn:He;
      [|done].
    cbn -[Script.compile Tag.dependencies] in Hz.
    destruct (Script.compile minify format s
                (Script.namesOf (Script.tags s) excl.1) true false)
      as [oe|] eqn:Hoe; [|done].
    cbn in Hz. injection Hz as <-.
    exists incl, excl, oi, oe. repeat (split; [done|]).
    intros Hreq Huniv.
    destruct (dependencies_leaf (Script.tags s) tag) as [Hi' He']; [|done|].
    { unfold Tag.requiredOf. by rewrite Htg. }
    rewrite Hi' in Hi. rewrite He' in He.
    injection Hi as <-. injection He as <-.
    cbn [fst Script.namesOf fmap list_fmap] in Hoi, Hoe.
    unfold Tag.nameOf in Hoi. rewrite Htg in Hoi. done.
Qed.

(** [measureTags] on the example with one tag, the minifier dropping white
    space. *)
Example measureTags_one_tag :
  Script.measureTags (λ x, Some (strip_blanks x)) Some (prepared text_one_tag)
  = Some (Script.mk (Script.lines (prepared text_one_tag))
            [Tag.mk (Some "A") "first" 4 [] ""], [])
  ∧ Script.compile (λ x, Some (strip_blanks x)) Some (prepared text_one_tag)
      [Some "A"] true false = Some "f();"
  ∧ Script.compile (λ x, Some (strip_blanks x)) Some (prepared text_one_tag)
      [] true false = Some "".
Proof. repeat split; reflexivity. Qed.

(** A minifier that fails on a text [measureTags] never hands to it: the
    sizes are computed all the same. *)
Example measureTags_partial_minifier :
  let minify x :=
    if bool_decide (x = "boom") then None else Some (strip_blanks x) in
  minify "boom" = None
  ∧ Script.measureTags minify Some (prepared text_one_tag)
    = Some (Script.mk (Script.lines (prepared text_one_tag))
              [Tag.mk (Some "A") "first" 4 [] ""], []).
Proof. split; reflexivity. Qed.

(** ** [loadExternal] *)

Lemma filter_out_absent (x : nat) (l : list nat) :
  x ∉ l → filter (λ r, r ≠ x) l = l.
Proof.
  induction l as [|y l IH]; intros Hx; [done|].
  rewrite filter_cons, decide_True.
  - f_equal. apply IH. intros H. apply Hx. by right.
  - intros ->. apply Hx. by left.
Qed.

Lemma length_filter_out (x : nat) (l : list nat) :
  NoDup l → x ∈ l → S (length (filter (λ r, r ≠ x) l)) = length l.
Proof.
  induction 1 as [|y l Hy Hnd IH]; intros Hx.
  - by apply elem_of_nil in Hx.
  - rewrite filter_cons. destruct (decide (y = x)) as [->|Hne].
    + rewrite decide_False by (intros H; by apply H).
      by rewrite filter_out_absent.
    + rewrite decide_True by done. cbn. f_equal. apply IH.
      apply elem_of_cons in Hx as [->|Hx]; done.
Qed.

Section Loading.

Variable registry : list Tag.t.

Lemma countLoaded_resolved (st : Script.Loading) :
  (Script.resolved st = true
   ↔ 0 < Script.tagsLoaded st ∧ length registry ≤ Script.tagsLoaded st) →
  (Script.resolved (Script.countLoaded registry st) = true
   ↔ 0 < S (Script.tagsLoaded st)
     ∧ length registry ≤ S (Script.tagsLoaded st)).
Proof.
  intros H. unfold Script.countLoaded. cbn [Script.resolved].
  rewrite orb_true_iff, bool_decide_eq_true, H. lia.
Qed.

Lemma loadExternal_step_counted (k : nat) (st : Script.Loading) :
  counted registry k st →
  counted registry (S k) (Script.loadExternal_step registry st k).
Proof.
  intros (Hsum & Hnd & Hlt & Hres). unfold Script.loadExternal_step.
  destruct (negb _).
  - split; [cbn; lia|]. split; [done|]. split.
    + intros r Hr. specialize (Hlt r Hr). lia.
    + by apply countLoaded_resolved.
  - split; [cbn; rewrite length_app; cbn; lia|]. split; [|split; [|done]].
    + apply NoDup_app. split; [done|]. split; [|apply NoDup_singleton].
      intros r Hr ->%list_elem_of_singleton. specialize (Hlt k Hr). lia.
    + intros r [Hr|Hr]%elem_of_app.
      * specialize (Hlt r Hr). lia.
      * apply list_elem_of_singleton in Hr. lia.
Qed.

Lemma executor_counted (lines : list Line.t) (n : nat) :
  counted registry n
    (foldl (Script.loadExternal_step registry)
       (Script.mkLoading lines 0 false [] []) (seq 0 n)).
Proof.
  induction n as [|n IH].
  - split; [done|]. split; [constructor|]. split.
    + intros r Hr. by apply elem_of_nil in Hr.
    + cbn. split; [done|lia].
  - rewrite seq_S, foldl_snoc. by apply loadExternal_step_counted.
Qed.

Lemma settle_counted (st : Script.Loading) (tag : nat) (o : Script.Outcome) :
  tag ∈ Script.awaiting st →
  counted registry (length registry) st →
  counted registry (length registry) (Script.settle registry st tag o).
Proof.
  intros Htag (Hsum & Hnd & Hlt & Hres).
  pose proof (length_filter_out tag _ Hnd Htag) as Hlen.
  unfold Script.settle. split; [|split; [|split]].
  - destruct o; cbn; lia.
  - destruct o; cbn; by apply NoDup_filter.
  - intros r. destruct o; cbn; intros [_ Hr]%list_elem_of_filter;
      by apply Hlt.
  - destruct o; cbn [Script.resolved Script.tagsLoaded Script.countLoaded];
      rewrite orb_true_iff, bool_decide_eq_true, Hres; lia.
Qed.

Lemma settles_many_counted (st st' : Script.Loading) :
  Script.settles_many registry st st' →
  counted registry (length registry) st → counted registry (length registry) st'.
Proof.
  induction 1 as [|st1 st2 st3 Hstep _ IH]; [done|]. intros H1. apply IH.
  destruct Hstep as [st tag o Htag]. by apply settle_counted.
Qed.

(** The promise is resolved exactly when there is a tag and no fetch is
    outstanding. *)
Lemma counted_resolved (st : Script.Loading) :
  counted registry (length registry) st →
  (Script.resolved st = true ↔ 0 < length registry ∧ Script.awaiting st = []).
Proof.
  intros (Hsum & _ & _ & Hres). rewrite Hres. split.
  - intros [H0 Hle]. split; [lia|]. apply length_zero_iff_nil. lia.
  - intros [H0 Hnil]. rewrite Hnil in Hsum. cbn in Hsum. lia.
Qed.

(** A fetch that fails adds no line and writes one error; one that
    succeeds appends its lines between the two marker lines. *)
Lemma settle_lines (st : Script.Loading) (tag : nat) (o : Script.Outcome) :
  Script.ld_lines (Script.settle registry st tag o)
  = match o with
    | Script.Fulfilled script =>
        Script.ld_lines st
        ++ [Line.new "" ("UTAGSET START " +:+ js_str (Tag.nameOf registry tag))]
        ++ Script.lines (Script.new script)
        ++ [Line.new "" ("UTAGSET END " +:+ js_str (Tag.nameOf registry tag))]
    | Script.Rejected _ => Script.ld_lines st
    end
  ∧ length (Script.ld_console (Script.settle registry st tag o))
    = match o with
      | Script.Fulfilled _ => length (Script.ld_console st)
      | Script.Rejected _ => S (length (Script.ld_console st))
      end.
Proof.
  destruct o; cbn; [by rewrite <- app_assoc|].
  split; [done|]. rewrite length_app. cbn. lia.
Qed.

End Loading.

(** For a script with at least one tag, the promise is resolved exactly in
    the states where every fetch has settled, in whatever order and with
    whatever outcomes they settle. *)
Lemma loadExternal_resolved_iff_settled (s : Script.t) (st : Script.Loading) :
  Script.settles_many (Script.tags s) (Script.loadExternal s) st →
  (Script.resolved st = true
   ↔ 0 < length (Script.tags s) ∧ Script.awaiting st = []).
Proof.
  intros Hmany. apply counted_resolved.
  eapply settles_many_counted; [exact Hmany|]. apply executor_counted.
Qed.

(** Whatever the outcomes, once the outstanding fetches have settled one
    after the other nothing is awaited any more; with at least one tag the
    promise is then resolved. *)
Lemma settle_each_settles (registry : list Tag.t) (o : nat → Script.Outcome)
    (st : Script.Loading) :
  NoDup (Script.awaiting st) →
  Script.settles_many registry st
    (settle_each registry o st (Script.awaiting st))
  ∧ Script.awaiting (settle_each registry o st (Script.awaiting st)) = [].
Proof.
  remember (Script.awaiting st) as refs eqn:Hrefs. intros Hnd.
  revert st Hrefs.
  induction Hnd as [|tag refs Htag Hnd IH]; intros st Hrefs.
  - split; [constructor|done].
  - cbn [settle_each foldl].
    assert (Script.awaiting (Script.settle registry st tag (o tag)) = refs)
      as Hrest.
    { unfold Script.settle. destruct (o tag); cbn; rewrite <- Hrefs;
        rewrite filter_cons, decide_False by (intros H; by apply H);
        by apply filter_out_absent. }
    destruct (IH (Script.settle registry st tag (o tag)) (eq_sym Hrest))
      as [Hmany Hnil].
    split; [|exact Hnil].
    eapply Script.settles_more; [|exact Hmany].
    constructor. rewrite <- Hrefs. by left.
Qed.

Lemma loadExternal_resolves_with_tags (s : Script.t) (o : nat → Script.Outcome) :
  0 < length (Script.tags s) →
  let final :=
    settle_each (Script.tags s) o (Script.loadExternal s)
      (Script.awaiting (Script.loadExternal s)) in
  Script.settles_many (Script.tags s) (Script.loadExternal s) final
  ∧ Script.resolved final = true.
Proof.
  intros Htags final.
  pose proof (executor_counted (Script.tags s) (Script.lines s)
                (length (Script.tags s))) as (_ & Hnd & _).
  destruct (settle_each_settles (Script.tags s) o (Script.loadExternal s) Hnd)
    as [Hmany Hnil].
  split; [exact Hmany|].
  by apply (loadExternal_resolved_iff_settled s final Hmany).
Qed.

(** Two tags, the first without a link: the promise is pending while the
    fetch for the second is outstanding, and resolved once it has failed;
    the failure adds no line and writes one error. *)
Example loadExternal_one_failed_fetch :
  let s := Script.mk [Line.new "x(); " ""]
             [Tag.new (Some "A"); Tag.mk (Some "B") "" 0 [] "b.js"] in
  let st := Script.loadExternal s in
  let st' := Script.settle (Script.tags s) st 1 (Script.Rejected "404") in
  Script.awaiting st = [1]
  ∧ Script.resolved st = false
  ∧ Script.resolved st' = true
  ∧ Script.ld_lines st' = Script.lines s
  ∧ Script.ld_console st'
    = [(LevelError,
        "Error getting script linked by tag " +:+ quoted "B"
        +:+ " from URL b.js: 404")].
Proof. repeat split; reflexivity. Qed.

(** C4 fails on the code for a script without tags: the executor's loop
    has no iteration, so [resolve] is not called and no fetch is started;
    no callback can run afterwards, and the promise stays pending. *)
Theorem loadExternal_without_tags_never_resolves (lines : list Line.t) :
  Script.loadExternal (Script.mk lines [])
  = Script.mkLoading lines 0 false [] []
  ∧ ∀ st, Script.settles_many [] (Script.loadExternal (Script.mk lines [])) st →
      st = Script.loadExternal (Script.mk lines [])
      ∧ Script.resolved st = false.
Proof.
  split; [done|]. intros st Hmany. cbn in Hmany.
  inversion Hmany as [|st1 st2 st3 Hstep _]; subst; [done|].
  inversion Hstep as [st' tag o Htag]; subst. cbn in Htag.
  by apply elem_of_nil in Htag.
Qed.

(** A text without directives gives a script without tags. *)
Example loadExternal_of_plain_script :
  Script.tags (Script.getTags (Script.new "x=1;")).1 = []
  ∧ Script.resolved (Script.loadExternal (Script.getTags (Script.new "x=1;")).1)
    = false
  ∧ Script.awaiting (Script.loadExternal (Script.getTags (Script.new "x=1;")).1)
    = [].
Proof. repeat split; reflexivity. Qed.

(** * Further properties of the code *)

(** ** [compile]: the rule behind [includeLine] *)

Lemma evaluate_rule (registry : list Tag.t) (names : list jsval)
    (lts : list LineTag.t) (b : bool) :
  Script.evaluate registry names lts b
  = forallb (λ lt, implb (LineTag.is_AND (LineTag.mode lt))
                     (includes names (Tag.nameOf registry (LineTag.tag lt))))
      lts
    && (b || existsb (λ lt, includes names (Tag.nameOf registry (LineTag.tag lt)))
               lts).
Proof.
  revert b. induction lts as [|lt lts IH]; intros b; cbn.
  - by rewrite orb_false_r.
  - destruct (LineTag.is_AND _), (includes names _); cbn; rewrite ?IH; cbn;
      try done; by rewrite ?orb_true_r.
Qed.

Lemma includeLine_as_booleans (registry : list Tag.t) (names : list jsval)
    (line : Line.t) :
  Script.includeLine registry names line
  = forallb (λ lt, implb (LineTag.is_AND (LineTag.mode lt))
                     (includes names (Tag.nameOf registry (LineTag.tag lt))))
      (Line.tags line)
    && existsb (λ lt, includes names (Tag.nameOf registry (LineTag.tag lt)))
         (Line.tags line).
Proof. unfold Script.includeLine. by rewrite evaluate_rule. Qed.

(** X1: a line is emitted exactly when every one of its [AND] associations
    names an included tag and at least one of its associations, of either
    mode, names an included tag; the order of the associations plays no
    part. *)
Theorem includeLine_rule (registry : list Tag.t) (names : list jsval)
    (line : Line.t) :
  Script.includeLine registry names line
  = forallb (λ lt, implb (LineTag.is_AND (LineTag.mode lt))
                     (includes names (Tag.nameOf registry (LineTag.tag lt))))
      (Line.tags line)
    && existsb (λ lt, includes names (Tag.nameOf registry (LineTag.tag lt)))
         (Line.tags line).
Proof. apply includeLine_as_booleans. Qed.

Lemma includes_same_members (names names' : list jsval) (x : jsval) :
  (∀ n, n ∈ names ↔ n ∈ names') → includes names x = includes names' x.
Proof. intros H. unfold includes. apply bool_decide_ext, H. Qed.

Lemma evaluate_same_members (registry : list Tag.t) (names names' : list jsval)
    (lts : list LineTag.t) (b : bool) :
  (∀ n, n ∈ names ↔ n ∈ names') →
  Script.evaluate registry names lts b = Script.evaluate registry names' lts b.
Proof.
  intros H. revert b. induction lts as [|lt lts IH]; intros b; [done|].
  cbn [Script.evaluate]. rewrite (includes_same_members names names' _ H).
  by rewrite !IH.
Qed.

(** X2: [compile] reads [includedTagNames] as a set: two arrays with the
    same members, in whatever order and with whatever repetitions, give the
    same output. *)
Theorem compile_same_members
    (minify format : string → option string) (s : Script.t)
    (names names' : list jsval) (uglified beautified : bool) :
  (∀ n, n ∈ names ↔ n ∈ names') →
  Script.compile minify format s names uglified beautified
  = Script.compile minify format s names' uglified beautified.
Proof.
  intros H. unfold Script.compile. rewrite !selected_emit.
  assert (∀ ls, emit (Script.tags s) names uglified ls
                = emit (Script.tags s) names' uglified ls) as Hemit.
  { induction ls as [|l ls IH]; [done|]. rewrite !emit_cons, IH.
    unfold emit_line, Script.includeLine.
    by rewrite (evaluate_same_members _ names names' _ _ H). }
  by rewrite Hemit.
Qed.

(** The two orders of the names [A] and [B], and [A] given twice. *)
Lemma compile_same_members_witness :
  Script.compile Some Some (prepared text_block_defined)
    [Some "X"; Some "B"] false false
  = Script.compile Some Some (prepared text_block_defined)
      [Some "B"; Some "X"; Some "X"] false false.
Proof.
  apply (compile_same_members Some Some (prepared text_block_defined)
           [Some "X"; Some "B"] [Some "B"; Some "X"; Some "X"]).
  intros n. rewrite !elem_of_cons, !elem_of_nil. tauto.
Defined.

(** ** [dependencies]: the tags a tag requires, directly or not *)

Section Reachability.

Variable registry : list Tag.t.

Lemma prefix_elem (l k : list nat) (x : nat) :
  l `prefix_of` k → x ∈ l → x ∈ k.
Proof. intros [m ->] Hx. apply elem_of_app. by left. Qed.

Lemma expanded_trans (old mid new : list nat) :
  mid `prefix_of` new →
  expanded registry old mid → expanded registry mid new →
  expanded registry old new.
Proof.
  intros Hpre H1 H2 t Ht Hold n r Hn Hr.
  destruct (decide (t ∈ mid)) as [Hmid|Hmid].
  - eapply prefix_elem; [done|]. by eapply H1.
  - by eapply H2.
Qed.

Lemma stems_trans (roots old mid new : list nat) :
  stems registry roots old mid → stems registry roots mid new →
  stems registry roots old new.
Proof.
  intros H1 H2 t Ht Hold.
  destruct (decide (t ∈ mid)) as [Hmid|Hmid]; [by apply H1|by apply H2].
Qed.

Lemma requireAll_explores recurse (a : nat) (names : list jsval)
    (st st' : list nat * Console) :
  explores registry recurse →
  Tag.requireAll registry recurse a names st = Some st' →
  st.1 `prefix_of` st'.1
  ∧ expanded registry st.1 st'.1
  ∧ (∀ n r, n ∈ names → Tag.find registry n = Some r → r ∈ st'.1)
  ∧ ∀ t, t ∈ st'.1 → t ∉ st.1 →
      ∃ n r, n ∈ names ∧ Tag.find registry n = Some r
             ∧ rtc (requires registry) r t.
Proof.
  intros Hrec. revert st.
  induction names as [|n names IH]; intros st Hreq; cbn [Tag.requireAll] in Hreq.
  - injection Hreq as <-. split; [done|]. split; [by intros t ??|].
    split; [by intros ?? ?%elem_of_nil|]. by intros t ??.
  - destruct (Tag.find registry n) as [r|] eqn:Hfind.
    + destruct (recurse r st) as [st1|] eqn:Hr; [|done]. cbn in Hreq.
      destruct (Hrec _ _ _ Hr) as (Hp1 & Hin1 & _ & He1 & Hs1).
      destruct (IH _ Hreq) as (Hp2 & He2 & Hall2 & Hs2).
      split; [by etrans|]. split; [by eapply expanded_trans|]. split.
      * intros n' r' [->|Hn']%elem_of_cons Hf'; [|by eapply Hall2].
        rewrite Hfind in Hf'. injection Hf' as <-. by eapply prefix_elem.
      * intros t Ht Hold. destruct (decide (t ∈ st1.1)) as [Hmid|Hmid].
        -- destruct (Hs1 t Hmid Hold) as (root & ->%list_elem_of_singleton & Hrtc).
           exists n, r. split; [by left|done].
        -- destruct (Hs2 t Ht Hmid) as (n' & r' & Hn' & Hf' & Hrtc).
           exists n', r'. split; [by right|done].
    + destruct (IH _ Hreq) as (Hp2 & He2 & Hall2 & Hs2). cbn [fst] in *.
      split; [done|]. split; [done|]. split.
      * intros n' r' [->|Hn']%elem_of_cons Hf'; [congruence|by eapply Hall2].
      * intros t Ht Hold. destruct (Hs2 t Ht Hold) as (n' & r' & Hn' & Hf' & Hrtc).
        exists n', r'. split; [by right|done].
Qed.

Lemma drain_explores recurse (toAdd : list nat) (st st' : list nat * Console) :
  explores registry recurse →
  Tag.drain registry recurse toAdd st = Some st' →
  st.1 `prefix_of` st'.1
  ∧ (∀ a, a ∈ toAdd → a ∈ st'.1)
  ∧ expanded registry st.1 st'.1
  ∧ stems registry toAdd st.1 st'.1.
Proof.
  intros Hrec. revert st.
  induction toAdd as [|a toAdd IH]; intros st Hd; cbn [Tag.drain] in Hd.
  - injection Hd as <-. split; [done|]. split; [by intros ? ?%elem_of_nil|].
    split; by intros t ??.
  - case_bool_decide as Ha.
    + destruct (IH _ Hd) as (Hp & Hall & He & Hs).
      split; [done|]. split; [|split; [done|]].
      * intros x [->|Hx]%elem_of_cons; [by eapply prefix_elem|by apply Hall].
      * intros t Ht Hold. destruct (Hs t Ht Hold) as (root & Hroot & Hrtc).
        exists root. split; [by right|done].
    + destruct (Tag.requireAll registry recurse a _ _) as [st1|] eqn:Hreq;
        [|done]. cbn in Hd.
      destruct (requireAll_explores _ _ _ _ _ Hrec Hreq)
        as (Hp1 & He1 & Hall1 & Hs1). cbn [fst] in *.
      destruct (IH _ Hd) as (Hp2 & Hall2 & He2 & Hs2).
      assert (st.1 `prefix_of` st1.1) as Hp01.
      { etrans; [|exact Hp1]. by apply prefix_app_r. }
      assert (a ∈ st1.1) as Ha1.
      { eapply prefix_elem; [exact Hp1|]. apply elem_of_app. right. by left. }
      split; [by etrans|]. split; [|split].
      * intros x [->|Hx]%elem_of_cons; [by eapply prefix_elem|by apply Hall2].
      * eapply expanded_trans; [exact Hp2| |exact He2].
        intros t Ht Hold n r Hn Hr.
        destruct (decide (t = a)) as [->|Hne]; [by eapply Hall1|].
        eapply He1; [done| |done..].
        intros [?|?%list_elem_of_singleton]%elem_of_app; done.
      * intros t Ht Hold. destruct (decide (t ∈ st1.1)) as [Hmid|Hmid].
        -- exists a. split; [by left|].
           destruct (decide (t = a)) as [->|Hne]; [done|].
           destruct (Hs1 t Hmid) as (n & r & Hn & Hf & Hrtc).
           { intros [?|?%list_elem_of_singleton]%elem_of_app; done. }
           eapply rtc_l; [|exact Hrtc]. by eapply requires_name.
        -- destruct (Hs2 t Ht Hmid) as (root & Hroot & Hrtc).
           exists root. split; [by right|done].
Qed.

Lemma collect_explores (fuel : nat) : explores registry (Tag.collect registry fuel).
Proof.
  induction fuel as [|fuel IH]; intros r st st' Hc; [done|].
  cbn [Tag.collect] in Hc.
  destruct (drain_explores _ _ _ _ IH Hc) as (Hp & Hall & He & Hs).
  split; [done|]. split; [apply Hall; by left|]. split; [|split; [done|]].
  - intros u Hu. apply Hall. right. rewrite Hu. by left.
  - intros t Ht Hold. destruct (Hs t Ht Hold) as (root & Hroot & Hrtc).
    exists r. split; [by left|].
    apply elem_of_cons in Hroot as [->|Hroot]; [done|].
    destruct (Tag.universal registry) as [u|] eqn:Hu; cbn in Hroot;
      [|by apply elem_of_nil in Hroot].
    apply list_elem_of_singleton in Hroot as ->.
    eapply rtc_l; [|exact Hrtc]. by apply requires_universal.
Qed.

(** A call that starts from an array closed under [requires] leaves one. *)
Lemma collect_closed (fuel : nat) (tag : nat) (st st' : list nat * Console) :
  (∀ t r, t ∈ st.1 → requires registry t r → r ∈ st.1) →
  Tag.collect registry fuel tag st = Some st' →
  ∀ t r, t ∈ st'.1 → requires registry t r → r ∈ st'.1.
Proof.
  intros Hclosed Hc t r Ht Hreq.
  destruct (collect_explores fuel _ _ _ Hc) as (Hp & _ & Hu & He & _).
  destruct (decide (t ∈ st.1)) as [Hold|Hold].
  - eapply prefix_elem; [done|]. by eapply Hclosed.
  - destruct Hreq as [n Hn Hf|Huniv]; [by eapply He|by apply Hu].
Qed.

End Reachability.

(** X3: [dependencies(T)] returns exactly the tags that [T] requires in
    zero or more steps, where a tag requires the tags its required names
    resolve to and the tag named [REQUIRED]; with [includeSelf = false],
    the same tags without [T]. *)
Theorem dependencies_are_the_required_tags
    (registry : list Tag.t) (includeSelf : bool) (tag : nat) :
  tag < length registry →
  ∃ out con,
    Tag.dependencies registry includeSelf tag = Some (out, con)
    ∧ ∀ r, r ∈ out
           ↔ rtc (requires registry) tag r ∧ (includeSelf = false → r ≠ tag).
Proof.
  intros Htag.
  destruct (dependencies_total registry includeSelf tag Htag)
    as (st & Hst & _ & _ & _ & Hdep).
  destruct (collect_explores registry _ _ _ _ Hst) as (_ & Hin & _ & _ & Hs).
  assert (∀ r, r ∈ st.1 ↔ rtc (requires registry) tag r) as Hiff.
  { intros r. split.
    - intros Hr. destruct (Hs r Hr) as (root & ->%list_elem_of_singleton & H);
        [apply not_elem_of_nil|done].
    - assert (∀ t r', t ∈ st.1 → requires registry t r' → r' ∈ st.1) as Hcl.
      { eapply (collect_closed registry _ _ ([], []) st); [|exact Hst].
        by intros ?? ?%elem_of_nil. }
      assert (∀ x, rtc (requires registry) x r → x ∈ st.1 → r ∈ st.1) as Hall.
      { induction 1 as [|x y z Hxy _ IH]; [done|]. intros Hx.
        apply IH. by eapply Hcl. }
      intros Hrtc. by eapply Hall. }
  eexists _, _. split; [exact Hdep|]. intros r. destruct includeSelf.
  - rewrite Hiff. split; [by intros ?|by intros [? _]].
  - rewrite list_elem_of_filter, Hiff. split.
    + intros [Hne Hr]. by split.
    + intros [Hr Hne]. split; [by apply Hne|done].
Qed.

(** Tag [A] of the registry in which [A] requires [B] and [REQUIRED] is
    defined. *)
Lemma dependencies_are_the_required_tags_witness :
  ∃ out con,
    Tag.dependencies registry_with_required true 0 = Some (out, con)
    ∧ ∀ r, r ∈ out
           ↔ rtc (requires registry_with_required) 0 r ∧ (true = false → r ≠ 0).
Proof.
  apply (dependencies_are_the_required_tags registry_with_required true 0).
  cbn. lia.
Defined.

(** ** The compile button: which tags a selection includes *)

Section Selection.

Variable registry : list Tag.t.
Variable checked : string → bool.

Lemma checkedDependencies_spec (refs : list nat) (st : list nat * Console) :
  Forall (λ t, t < length registry) refs →
  tidy registry st.1 →
  (∀ t r, t ∈ st.1 → requires registry t r → r ∈ st.1) →
  ∃ st', Builder.checkedDependencies registry checked refs st = Some st'
    ∧ tidy registry st'.1
    ∧ st.1 `prefix_of` st'.1
    ∧ (∀ t r, t ∈ st'.1 → requires registry t r → r ∈ st'.1)
    ∧ (∀ t, t ∈ refs → checked (Tag.toString registry t) = true → t ∈ st'.1)
    ∧ stems registry
        (filter (λ t, checked (Tag.toString registry t) = true) refs)
        st.1 st'.1.
Proof.
  intros Hrefs. revert st.
  induction Hrefs as [|tag refs Htag Hrefs IH]; intros st Htidy Hclosed;
    cbn [Builder.checkedDependencies].
  - exists st. split; [done|]. split; [done|]. split; [done|].
    split; [done|]. split; [by intros ? ?%elem_of_nil|]. by intros t ??.
  - rewrite filter_cons.
    destruct (checked (Tag.toString registry tag)) eqn:Hc.
    + destruct (collect_sound registry (S (length registry)) 0 ltac:(lia)
                  tag st Htag Htidy ltac:(lia)) as (st1 & Hst1 & [Ht1 Hp1] & Hin1).
      rewrite Hst1. cbn [mbind option_bind].
      pose proof (collect_closed registry _ _ _ _ Hclosed Hst1) as Hcl1.
      destruct (collect_explores registry _ _ _ _ Hst1) as (_ & _ & _ & _ & Hs1).
      destruct (IH st1 Ht1 Hcl1) as (st' & -> & Ht' & Hp' & Hcl' & Hall' & Hs').
      exists st'. split; [done|]. split; [done|]. split; [by etrans|].
      split; [done|]. split.
      * intros t [->|Ht]%elem_of_cons Hct; [|by apply Hall'].
        by eapply prefix_elem.
      * rewrite decide_True by done.
        intros t Ht Hold. destruct (decide (t ∈ st1.1)) as [Hmid|Hmid].
        -- destruct (Hs1 t Hmid Hold) as (root & ->%list_elem_of_singleton & H).
           exists tag. split; [by left|done].
        -- destruct (Hs' t Ht Hmid) as (root & Hroot & H).
           exists root. split; [by right|done].
    + destruct (IH st Htidy Hclosed) as (st' & -> & Ht' & Hp' & Hcl' & Hall' & Hs').
      exists st'. split; [done|]. split; [done|]. split; [done|].
      split; [done|]. split.
      * intros t [->|Ht]%elem_of_cons Hct; [congruence|by apply Hall'].
      * rewrite decide_False by done. exact Hs'.
Qed.

End Selection.

Lemma includedTags_spec
    (registry : list Tag.t) (checked : string → bool) :
  ∃ out con,
    Builder.includedTags registry checked = Some (out, con)
    ∧ NoDup out
    ∧ ∀ r, r ∈ out
           ↔ ∃ t, t < length registry
                  ∧ checked (Tag.toString registry t) = true
                  ∧ rtc (requires registry) t r.
Proof.
  destruct (checkedDependencies_spec registry checked
              (seq 0 (length registry)) ([], []))
    as ([out con] & Hsome & [Hnd _] & _ & Hclosed & Hall & Hstems).
  - apply Forall_forall. intros t Ht%elem_of_seq. lia.
  - apply tidy_nil.
  - by intros ?? ?%elem_of_nil.
  - exists out, con. split; [exact Hsome|]. split; [exact Hnd|].
    cbn [fst] in *. intros r. split.
    + intros Hr. destruct (Hstems r Hr) as (t & Ht & Hrtc);
        [apply not_elem_of_nil|].
      apply list_elem_of_filter in Ht as [Hc Ht%elem_of_seq].
      exists t. split; [lia|done].
    + intros (t & Ht & Hc & Hrtc).
      assert (t ∈ out) as Hin.
      { apply Hall; [|done]. apply elem_of_seq. lia. }
      clear Ht Hc. induction Hrtc as [|x y z Hxy _ IH]; [done|].
      apply IH. by eapply Hclosed.
Qed.

(** X4: the compile button's handler always finishes its loop, and the
    tags it selects are, without repetition, exactly the tags that some
    checked tag requires in zero or more steps: every checked tag, the tag
    [REQUIRED] as soon as one box is checked, and everything these
    require. *)
Theorem includedTags_are_the_required_tags
    (registry : list Tag.t) (checked : string → bool) :
  ∃ out con,
    Builder.includedTags registry checked = Some (out, con)
    ∧ NoDup out
    ∧ ∀ r, r ∈ out
           ↔ ∃ t, t < length registry
                  ∧ checked (Tag.toString registry t) = true
                  ∧ rtc (requires registry) t r.
Proof. apply includedTags_spec. Qed.

(** X5: when no box is checked the handler selects no tag, and the text it
    hands to the download is that of [compile] with the empty array: with
    both post-processing boxes unchecked, the empty text. *)
Theorem compileScript_nothing_checked
    (minify format : string → option string) (s : Script.t)
    (checked : string → bool) (uglify beautify : bool) :
  (∀ t, t < length (Script.tags s) →
        checked (Tag.toString (Script.tags s) t) = false) →
  Builder.includedTagNames (Script.tags s) checked = Some ([], [])
  ∧ Builder.compileScript minify format s checked uglify beautify
    = Script.compile minify format s [] uglify beautify
  ∧ Builder.compileScript minify format s checked false false = Some "".
Proof.
  intros Hnone.
  assert (∀ refs st, Forall (λ t, t < length (Script.tags s)) refs →
            Builder.checkedDependencies (Script.tags s) checked refs st
            = Some st) as Hloop.
  { intros refs st Hrefs. induction Hrefs as [|t refs Ht _ IH]; [done|].
    cbn [Builder.checkedDependencies]. by rewrite (Hnone t Ht). }
  assert (Builder.includedTagNames (Script.tags s) checked = Some ([], []))
    as Hnames.
  { unfold Builder.includedTagNames, Builder.includedTags.
    rewrite Hloop; [done|]. apply Forall_forall. intros t Ht%elem_of_seq. lia. }
  split; [exact Hnames|]. unfold Builder.compileScript. rewrite Hnames.
  split; [done|]. cbn [mbind option_bind fst].
  by rewrite compile_plain, emit_no_names.
Qed.

(** No box checked on the script with the block of [X]. *)
Lemma compileScript_nothing_checked_witness :
  Builder.compileScript Some Some (prepared text_block_defined)
    (λ _, false) false false = Some "".
Proof.
  apply (compileScript_nothing_checked Some Some (prepared text_block_defined)
           (λ _, false) false false).
  intros t _. reflexivity.
Defined.

(** X6: the download holds every line that has no [AND] association and
    carries a tag the selection includes, that is a checked tag or a tag
    that a checked tag requires. *)
Theorem compileScript_emits_selected_lines
    (s : Script.t) (checked : string → bool) (line : Line.t)
    (lt : LineTag.t) (t : nat) :
  t < length (Script.tags s) →
  checked (Tag.toString (Script.tags s) t) = true →
  rtc (requires (Script.tags s)) t (LineTag.tag lt) →
  lt ∈ Line.tags line →
  Forall (λ lt', LineTag.is_AND (LineTag.mode lt') = false) (Line.tags line) →
  ∃ names con,
    Builder.includedTagNames (Script.tags s) checked = Some (names, con)
    ∧ Script.includeLine (Script.tags s) names line = true.
Proof.
  intros Ht Hc Hrtc Hlt Hor.
  destruct (includedTags_spec (Script.tags s) checked)
    as (out & con & Hsome & _ & Hiff).
  exists (Script.namesOf (Script.tags s) out), con.
  unfold Builder.includedTagNames. rewrite Hsome. split; [done|].
  rewrite includeLine_as_booleans. apply andb_true_intro. split.
  - apply forallb_forall. intros lt' Hlt'%list_elem_of_In.
    rewrite Forall_forall in Hor. by rewrite (Hor lt' Hlt').
  - apply existsb_exists. exists lt. split; [by apply list_elem_of_In|].
    unfold includes. apply bool_decide_eq_true.
    unfold Script.namesOf. apply list_elem_of_fmap.
    exists (LineTag.tag lt). split; [done|]. apply Hiff. eauto.
Qed.

(** The box of [X] checked on the script with the block of [X]: the
    code-only line of the block is in the download. *)
Lemma compileScript_emits_selected_lines_witness :
  ∃ names con,
    Builder.includedTagNames (Script.tags (prepared text_block_defined))
      (λ key, bool_decide (key = "X")) = Some (names, con)
    ∧ Script.includeLine (Script.tags (prepared text_block_defined)) names
        (Line.mk "y=2; " "" [LineTag.mk 0 (LineTag.Mode (Some "OR"))]) = true.
Proof.
  apply (compileScript_emits_selected_lines (prepared text_block_defined)
           (λ key, bool_decide (key = "X"))
           (Line.mk "y=2; " "" [LineTag.mk 0 (LineTag.Mode (Some "OR"))])
           (LineTag.mk 0 (LineTag.Mode (Some "OR"))) 0).
  - vm_compute. lia.
  - reflexivity.
  - apply rtc_refl.
  - by left.
  - by repeat constructor.
Defined.

(** ** [getTags]: what the registry keeps *)

Lemma find_is_Some (registry : list Tag.t) (n : jsval) :
  is_Some (Tag.find registry n) ↔ n ∈ Tag.name <$> registry.
Proof.
  split.
  - intros [r Hr]. apply find_Some in Hr as [Hlt Hname].
    apply list_elem_of_fmap. unfold Tag.nameOf in Hname.
    destruct (registry !! r) as [tg|] eqn:Htg.
    + exists tg. split; [done|]. apply list_elem_of_lookup. eauto.
    + apply lookup_ge_None in Htg. lia.
  - intros (tg & -> & [r Hr]%list_elem_of_lookup)%list_elem_of_fmap.
    destruct (Tag.find registry (Tag.name tg)) as [x|] eqn:Hfind; [eauto|].
    exfalso. apply (find_None registry _ r Hfind).
    + by eapply lookup_lt_Some.
    + unfold Tag.nameOf. by rewrite Hr.
Qed.

Lemma names_alter (f : Tag.t → Tag.t) (i : nat) (registry : list Tag.t) :
  (∀ tg, Tag.name (f tg) = Tag.name tg) →
  Tag.name <$> alter f i registry = Tag.name <$> registry.
Proof.
  intros Hf. rewrite (list_fmap_alter Tag.name f id)
    by (apply Forall_true; intros tg; apply Hf).
  by rewrite list_alter_id.
Qed.

(** One line of [getTags]: the subject tag is found or created, then one
    of its fields is set; its name stays, and its list of required names
    stays or gains the name of a tag of the registry. *)
Lemma getTags_step_shape (st : list Tag.t * Console) (line : Line.t) :
  (Script.getTags_step st line).1 = st.1
  ∨ ∃ tagName f,
      (Script.getTags_step st line).1
      = alter f (Script.findOrCreate st.1 tagName).2
          (Script.findOrCreate st.1 tagName).1
      ∧ (∀ tg, Tag.name (f tg) = Tag.name tg)
      ∧ ∀ tg, Tag.requiredTagNames (f tg) = Tag.requiredTagNames tg
              ∨ ∃ n, n ∈ Tag.name <$> (Script.findOrCreate st.1 tagName).1
                     ∧ Tag.requiredTagNames (f tg)
                       = Tag.requiredTagNames tg ++ [n].
Proof.
  unfold Script.getTags_step.
  set (comment := JsString.split JsString.is_space (Line.comment line)).
  case_bool_decide as Hop; [by left|]. right. exists (comment !! 2).
  destruct (Script.findOrCreate st.1 (comment !! 2)) as [registry tag] eqn:Hfc.
  cbn [fst snd].
  repeat case_bool_decide.
  - eexists. split; [done|]. split; [done|]. intros tg. by left.
  - destruct (Tag.find registry (Some _)) as [requiredTag|] eqn:Hfind.
    + eexists. split; [done|]. split; [done|]. intros tg. right.
      exists (Tag.nameOf registry requiredTag). split; [|done].
      pose proof (find_Some _ _ _ Hfind) as [_ Hname]. rewrite Hname.
      apply find_is_Some. rewrite Hfind. eauto.
    + exists id. cbn [fst]. rewrite list_alter_id by done.
      split; [done|]. split; [done|]. intros tg. by left.
  - eexists. split; [done|]. split; [done|]. intros tg. by left.
  - exists id. cbn [fst]. rewrite list_alter_id by done.
    split; [done|]. split; [done|]. intros tg. by left.
  - exists id. cbn [fst]. rewrite list_alter_id by done.
    split; [done|]. split; [done|]. intros tg. by left.
Qed.

Lemma findOrCreate_names (registry : list Tag.t) (n : jsval) :
  Tag.name <$> (Script.findOrCreate registry n).1 = Tag.name <$> registry
  ∨ (Tag.name <$> (Script.findOrCreate registry n).1
     = (Tag.name <$> registry) ++ [n]
     ∧ n ∉ Tag.name <$> registry).
Proof.
  unfold Script.findOrCreate.
  destruct (Tag.find registry n) as [r|] eqn:Hfind; cbn [fst]; [by left|].
  right. rewrite fmap_app. split; [done|].
  intros Hin%find_is_Some. rewrite Hfind in Hin. by destruct Hin.
Qed.

Lemma getTags_step_prefix (st : list Tag.t * Console) (line : Line.t) :
  (Tag.name <$> st.1) `prefix_of` (Tag.name <$> (Script.getTags_step st line).1).
Proof.
  destruct (getTags_step_shape st line) as [->|(n & f & -> & Hf & _)]; [done|].
  rewrite names_alter by done.
  destruct (findOrCreate_names st.1 n) as [->|[-> _]]; [done|].
  by apply prefix_app_r.
Qed.

Lemma getTags_step_NoDup (st : list Tag.t * Console) (line : Line.t) :
  NoDup (Tag.name <$> st.1) →
  NoDup (Tag.name <$> (Script.getTags_step st line).1).
Proof.
  intros Hnd.
  destruct (getTags_step_shape st line) as [->|(n & f & -> & Hf & _)]; [done|].
  rewrite names_alter by done.
  destruct (findOrCreate_names st.1 n) as [->|[-> Hn]]; [done|].
  apply NoDup_app. split; [done|]. split; [|apply NoDup_singleton].
  intros x Hx ->%list_elem_of_singleton. done.
Qed.

Lemma getTags_step_resolvable (st : list Tag.t * Console) (line : Line.t) :
  resolvable st.1 → resolvable (Script.getTags_step st line).1.
Proof.
  intros Hres.
  destruct (getTags_step_shape st line) as [->|(n & f & -> & Hf & Hreq)];
    [done|].
  pose proof (getTags_step_prefix st line) as Hpre.
  set (registry1 := (Script.findOrCreate st.1 n).1) in *.
  set (tag := (Script.findOrCreate st.1 n).2) in *.
  assert (∀ x, x ∈ Tag.name <$> registry1 →
               is_Some (Tag.find (alter f tag registry1) x)) as Hfind.
  { intros x Hx. apply find_is_Some. by rewrite names_alter. }
  assert (∀ t x, x ∈ Tag.requiredOf registry1 t → x ∈ Tag.name <$> registry1)
    as Hres1.
  { intros t x Hx. unfold registry1 in Hx. rewrite findOrCreate_required in Hx.
    apply Hres, find_is_Some in Hx.
    destruct (findOrCreate_names st.1 n) as [H|[H _]]; unfold registry1;
      rewrite H; [done|]. apply elem_of_app. by left. }
  intros t x Hx. apply Hfind. unfold Tag.requiredOf in Hx.
  destruct (decide (t = tag)) as [->|Hne].
  - rewrite list_lookup_alter_eq in Hx.
    destruct (registry1 !! tag) as [tg|] eqn:Htg; cbn in Hx;
      [|by apply elem_of_nil in Hx].
    destruct (Hreq tg) as [Heq|(x' & Hx' & Heq)]; rewrite Heq in Hx.
    + apply (Hres1 tag). unfold Tag.requiredOf. by rewrite Htg.
    + apply elem_of_app in Hx as [Hx|Hx];
        [|by apply list_elem_of_singleton in Hx as ->].
      apply (Hres1 tag). unfold Tag.requiredOf. by rewrite Htg.
  - rewrite list_lookup_alter_ne in Hx by done. by apply (Hres1 t).
Qed.

Lemma getTags_foldl (P : list Tag.t → Prop) (ls : list Line.t)
    (st : list Tag.t * Console) :
  (∀ st line, P st.1 → P (Script.getTags_step st line).1) →
  P st.1 → P (foldl Script.getTags_step st ls).1.
Proof.
  intros Hstep. revert st. induction ls as [|l ls IH]; intros st HP; [done|].
  cbn [foldl]. by apply IH, Hstep.
Qed.

(** X7: [getTags] only adds tags, at the end of the registry: the tags
    that were there keep their places and their names, so a reference to a
    tag stays a reference to the tag of that name. *)
Theorem getTags_appends (s : Script.t) :
  (Tag.name <$> Script.tags s)
    `prefix_of` (Tag.name <$> Script.tags (Script.getTags s).1)
  ∧ ∀ r, r < length (Script.tags s) →
      Tag.nameOf (Script.tags (Script.getTags s).1) r
      = Tag.nameOf (Script.tags s) r.
Proof.
  assert ((Tag.name <$> Script.tags s)
            `prefix_of` (Tag.name <$> Script.tags (Script.getTags s).1)) as Hpre.
  { unfold Script.getTags. cbn [fst Script.tags].
    apply (getTags_foldl (λ reg, (Tag.name <$> Script.tags s)
                                   `prefix_of` (Tag.name <$> reg))); [|done].
    intros st line H. etrans; [exact H|]. apply getTags_step_prefix. }
  split; [exact Hpre|]. intros r Hr.
  destruct (lookup_lt_is_Some_2 (Script.tags s) r Hr) as [tg Htg].
  assert ((Tag.name <$> Script.tags (Script.getTags s).1) !! r
          = Some (Tag.name tg)) as H.
  { eapply prefix_lookup_Some; [|exact Hpre].
    by rewrite list_lookup_fmap, Htg. }
  rewrite list_lookup_fmap in H. unfold Tag.nameOf. rewrite Htg.
  by destruct (Script.tags (Script.getTags s).1 !! r); simplify_eq/=.
Qed.

(** X8: [getTags] keeps the names of the registry distinct: it never
    creates a second tag of a name that a tag already has. *)
Theorem getTags_keeps_names_distinct (s : Script.t) :
  NoDup (Tag.name <$> Script.tags s) →
  NoDup (Tag.name <$> Script.tags (Script.getTags s).1).
Proof.
  intros Hnd. unfold Script.getTags. cbn [fst Script.tags].
  apply (getTags_foldl (λ reg, NoDup (Tag.name <$> reg))); [|done].
  intros st line. apply getTags_step_NoDup.
Qed.

(** The registry [getTags] builds from a text. *)
Lemma getTags_keeps_names_distinct_witness :
  NoDup (Tag.name <$> Script.tags
           (Script.getTags (Script.new text_requirements)).1).
Proof.
  apply (getTags_keeps_names_distinct (Script.new text_requirements)).
  cbn. constructor.
Defined.

Lemma getTags_resolvable (s : Script.t) :
  resolvable (Script.tags s) → resolvable (Script.tags (Script.getTags s).1).
Proof.
  intros Hres. unfold Script.getTags. cbn [fst Script.tags].
  apply (getTags_foldl resolvable); [|done].
  intros st line. apply getTags_step_resolvable.
Qed.

Lemma resolvable_nil : resolvable [].
Proof. intros t n Hn. unfold Tag.requiredOf in Hn. by apply elem_of_nil in Hn. Qed.

(** With every required name resolvable, [dependencies] writes nothing to
    the console. *)
Section Silent.

Variable registry : list Tag.t.
Hypothesis Hres : resolvable registry.

Lemma requireAll_silent recurse (a : nat) (names : list jsval)
    (st st' : list nat * Console) :
  (∀ r st st', recurse r st = Some st' → st'.2 = st.2) →
  (∀ n, n ∈ names → is_Some (Tag.find registry n)) →
  Tag.requireAll registry recurse a names st = Some st' → st'.2 = st.2.
Proof.
  intros Hrec. revert st.
  induction names as [|n names IH]; intros st Hnames Hreq;
    cbn [Tag.requireAll] in Hreq; [by injection Hreq as <-|].
  destruct (Hnames n) as [r Hr]; [by left|]. rewrite Hr in Hreq.
  destruct (recurse r st) as [st1|] eqn:H1; [|done]. cbn in Hreq.
  rewrite (IH st1); [by eapply Hrec| |done].
  intros n' Hn'. apply Hnames. by right.
Qed.

Lemma drain_silent recurse (toAdd : list nat) (st st' : list nat * Console) :
  (∀ r st st', recurse r st = Some st' → st'.2 = st.2) →
  Tag.drain registry recurse toAdd st = Some st' → st'.2 = st.2.
Proof.
  intros Hrec. revert st.
  induction toAdd as [|a toAdd IH]; intros st Hd; cbn [Tag.drain] in Hd;
    [by injection Hd as <-|].
  case_bool_decide; [by apply IH|].
  destruct (Tag.requireAll registry recurse a _ _) as [st1|] eqn:H1; [|done].
  cbn in Hd. rewrite (IH st1 Hd).
  eapply requireAll_silent in H1; [done|done|]. intros n Hn. by eapply Hres.
Qed.

Lemma collect_silent (fuel : nat) (r : nat) (st st' : list nat * Console) :
  Tag.collect registry fuel r st = Some st' → st'.2 = st.2.
Proof.
  revert r st st'. induction fuel as [|fuel IH]; intros r st st' Hc; [done|].
  cbn [Tag.collect] in Hc. by eapply drain_silent.
Qed.

End Silent.

(** X9: [getTags] leaves no dangling requirement: every required name it
    records names a tag of the registry, and afterwards [dependencies]
    returns for every tag without writing a warning. *)
Theorem getTags_leaves_no_dangling_requirement
    (s : Script.t) (includeSelf : bool) (tag : nat) :
  resolvable (Script.tags s) →
  tag < length (Script.tags (Script.getTags s).1) →
  resolvable (Script.tags (Script.getTags s).1)
  ∧ ∃ out,
      Tag.dependencies (Script.tags (Script.getTags s).1) includeSelf tag
      = Some (out, []).
Proof.
  intros Hres Htag. pose proof (getTags_resolvable s Hres) as Hres'.
  split; [exact Hres'|].
  destruct (dependencies_total _ includeSelf tag Htag)
    as (st & Hst & _ & _ & _ & Hdep).
  apply (collect_silent _ Hres') in Hst. cbn in Hst.
  rewrite Hdep, Hst. eauto.
Qed.

(** Tag [B] of the registry [getTags] builds from a text. *)
Lemma getTags_leaves_no_dangling_requirement_witness :
  ∃ out,
    Tag.dependencies
      (Script.tags (Script.getTags (Script.new text_requirements)).1) true 1
    = Some (out, []).
Proof.
  apply (getTags_leaves_no_dangling_requirement
           (Script.new text_requirements) true 1).
  - apply resolvable_nil.
  - vm_compute. lia.
Defined.

(** ** [tagLines]: what it leaves alone *)

Lemma tagLines_step_tagged (registry : list Tag.t) (st : Script.TagState)
    (line : Line.t) :
  Forall (λ lt, LineTag.tag lt < length registry) (Script.multilineTags st) →
  ∃ line',
    Script.visited (Script.tagLines_step registry st line)
    = Script.visited st ++ [line']
    ∧ tagged registry line line'
    ∧ Forall (λ lt, LineTag.tag lt < length registry)
        (Script.multilineTags (Script.tagLines_step registry st line)).
Proof.
  intros Hmulti. unfold Script.tagLines_step.
  assert (∀ (P : LineTag.t → Prop) `{!∀ x, Decision (P x)},
            Forall (λ lt, LineTag.tag lt < length registry)
              (filter P (Script.multilineTags st))) as Hfilter.
  { intros P HP. apply Forall_forall. intros lt [_ Hlt]%list_elem_of_filter.
    by eapply Forall_forall in Hmulti. }
  case_bool_decide as Hop.
  - destruct (Tag.find registry _) as [tag|] eqn:Hfind.
    + apply find_Some in Hfind as [Htag _].
      repeat case_bool_decide; cbn [Script.visited Script.multilineTags];
        eexists; (split; [done|]); (split; [|try done]);
        try (split; [done|]; split; [done|]; eexists; split; [done|]);
        repeat first [ apply Forall_app; split | apply Forall_cons; split
                     | apply Forall_nil | done ].
    + exists line. split; [done|]. split; [|done].
      split; [done|]. split; [done|]. exists []. by rewrite app_nil_r.
  - cbn. eexists. split; [done|]. split; [|done].
    split; [done|]. split; [done|]. eexists. split; [done|]. done.
Qed.

Lemma tagLines_run_tagged (registry : list Tag.t) (ls : list Line.t)
    (st : Script.TagState) :
  Forall (λ lt, LineTag.tag lt < length registry) (Script.multilineTags st) →
  ∃ ls', Script.visited (foldl (Script.tagLines_step registry) st ls)
         = Script.visited st ++ ls'
         ∧ Forall2 (tagged registry) ls ls'.
Proof.
  revert st. induction ls as [|l ls IH]; intros st Hst.
  - exists []. by rewrite app_nil_r.
  - cbn [foldl].
    destruct (tagLines_step_tagged registry st l Hst) as (l' & Hv & Hl & Hst').
    destruct (IH _ Hst') as (ls' & Hv' & Hls).
    exists (l' :: ls'). rewrite Hv', Hv, <- app_assoc. split; [done|].
    by constructor.
Qed.

(** X10: [tagLines] only pushes associations: the registry, the number of
    lines and the code and comment of every line stay as they were, the
    associations a line had are kept in front, and every association
    pushed is to a tag of the registry. *)
Theorem tagLines_only_pushes_associations (s : Script.t) :
  Script.tags (Script.tagLines s).1 = Script.tags s
  ∧ Forall2 (tagged (Script.tags s))
      (Script.lines s) (Script.lines (Script.tagLines s).1).
Proof.
  split; [done|]. unfold Script.tagLines, Script.tagLines_run. cbn [fst Script.lines].
  destruct (tagLines_run_tagged (Script.tags s) (Script.lines s)
              (Script.mkTagState [] [] [])) as (ls' & -> & Hls); [by constructor|].
  done.
Qed.

(** ** The constructor: what a line holds *)

Lemma no_space_split_runs (in_run : bool) (s : string) :
  Forall (λ w, no_space w = true)
    (JsString.split_runs JsString.is_space in_run s).
Proof.
  revert in_run. induction s as [|c s IH]; intros in_run.
  - by repeat constructor.
  - cbn [JsString.split_runs]. destruct (JsString.is_space c) eqn:Hc.
    + destruct in_run; [apply IH|]. constructor; [done|apply IH].
    + specialize (IH false).
      destruct (JsString.split_runs JsString.is_space false s) as [|w ws].
      * repeat constructor. cbn. by rewrite Hc.
      * apply Forall_cons in IH as [Hw Hws]. constructor; [|done].
        cbn. by rewrite Hc, Hw.
Qed.

Lemma no_space_trimStart (s : string) :
  no_space s = true → no_space (JsString.trimStart s) = true.
Proof.
  induction s as [|c s IH]; [done|]. intros Hs. cbn [JsString.trimStart].
  destruct (JsString.is_white c); [|done]. apply IH.
  cbn in Hs. by apply andb_prop in Hs as [_ ?].
Qed.

Lemma no_space_trimEnd (s : string) :
  no_space s = true → no_space (JsString.trimEnd s) = true.
Proof.
  induction s as [|c s IH]; [done|]. intros Hs. cbn in Hs.
  apply andb_prop in Hs as [Hc Hs]. specialize (IH Hs).
  cbn [JsString.trimEnd]. destruct (JsString.trimEnd s) as [|d r].
  - destruct (JsString.is_white c); [done|]. cbn. by rewrite Hc.
  - change (negb (JsString.is_space c) && no_space (String d r) = true).
    by rewrite Hc, IH.
Qed.

Lemma no_space_substring_from (n : nat) (s : string) :
  no_space s = true → no_space (JsString.substring_from n s) = true.
Proof.
  revert s. induction n as [|n IH]; intros s Hs; [by destruct s|].
  destruct s as [|c s]; [done|]. cbn [JsString.substring_from]. apply IH.
  cbn in Hs. by apply andb_prop in Hs as [_ ?].
Qed.

Lemma spaced_snoc (ws : list string) (w : string) :
  spaced (ws ++ [w]) = spaced ws +:+ w +:+ " ".
Proof.
  induction ws as [|x ws IH]; cbn [spaced app].
  - by rewrite app_empty_r.
  - by rewrite IH, !app_assoc'.
Qed.

(** The words kept so far, in the code and in the comment. *)
Lemma word_step_spaced (st : Script.WordState) (word : string)
    (cw kw : list string) :
  no_space word = true →
  Forall (λ w, is_word w = true) cw → Forall (λ w, is_word w = true) kw →
  Script.ws_code st = spaced cw → Script.ws_comment st = spaced kw →
  ∃ cw' kw',
    Forall (λ w, is_word w = true) cw' ∧ Forall (λ w, is_word w = true) kw'
    ∧ Script.ws_code (Script.word_step st word) = spaced cw'
    ∧ Script.ws_comment (Script.word_step st word) = spaced kw'.
Proof.
  intros Hword Hcw Hkw Hc Hk. unfold Script.word_step.
  pose proof (no_space_trimEnd _ (no_space_trimStart _ Hword)) as Htrim.
  fold (JsString.trim word) in Htrim.
  pose proof (no_space_substring_from 2 _ Htrim) as Hsub.
  assert (∀ w, no_space w = true → ¬ String.length w ≤ 0 → is_word w = true)
    as Hw.
  { intros w Hns Hlen. unfold is_word. rewrite Hns.
    destruct w; [cbn in Hlen; lia|done]. }
  repeat case_match; simplify_eq; cbn [Script.ws_code Script.ws_comment];
    try (by exists cw, kw);
    first
      [ exists cw, (kw ++ [JsString.substring_from 2 (JsString.trim word)]);
        rewrite spaced_snoc, Hk;
        by repeat first [split | apply Forall_app | apply Forall_cons
                        | apply Forall_nil | apply Hw
                        | eapply bool_decide_eq_false_1 | done]
      | exists cw, (kw ++ [JsString.trim word]);
        rewrite spaced_snoc, Hk;
        by repeat first [split | apply Forall_app | apply Forall_cons
                        | apply Forall_nil | apply Hw
                        | eapply bool_decide_eq_false_1 | done]
      | exists (cw ++ [JsString.substring_from 2 (JsString.trim word)]), kw;
        rewrite spaced_snoc, Hc;
        by repeat first [split | apply Forall_app | apply Forall_cons
                        | apply Forall_nil | apply Hw
                        | eapply bool_decide_eq_false_1 | done]
      | exists (cw ++ [JsString.trim word]), kw;
        rewrite spaced_snoc, Hc;
        by repeat first [split | apply Forall_app | apply Forall_cons
                        | apply Forall_nil | apply Hw
                        | eapply bool_decide_eq_false_1 | done] ].
Qed.

Lemma words_spaced (words : list string) (st : Script.WordState)
    (cw kw : list string) :
  Forall (λ w, no_space w = true) words →
  Forall (λ w, is_word w = true) cw → Forall (λ w, is_word w = true) kw →
  Script.ws_code st = spaced cw → Script.ws_comment st = spaced kw →
  ∃ cw' kw',
    Forall (λ w, is_word w = true) cw' ∧ Forall (λ w, is_word w = true) kw'
    ∧ Script.ws_code (foldl Script.word_step st words) = spaced cw'
    ∧ Script.ws_comment (foldl Script.word_step st words) = spaced kw'.
Proof.
  intros Hwords. revert st cw kw.
  induction Hwords as [|w words Hw _ IH]; intros st cw kw Hcw Hkw Hc Hk.
  - by exists cw, kw.
  - cbn [foldl].
    destruct (word_step_spaced st w cw kw Hw Hcw Hkw Hc Hk)
      as (cw1 & kw1 & Hcw1 & Hkw1 & Hc1 & Hk1).
    by apply (IH _ cw1 kw1).
Qed.

Lemma line_step_built (st : list Line.t * bool) (line : string) :
  Forall built st.1 → Forall built (Script.line_step st line).1.
Proof.
  intros Hst. unfold Script.line_step. cbn [fst].
  apply Forall_app. split; [done|]. apply Forall_singleton.
  destruct (words_spaced
              (JsString.split JsString.is_space (JsString.trim line))
              (Script.mkWordState "" "" false st.2) [] [])
    as (cw & kw & Hcw & Hkw & Hc & Hk); try done.
  { apply no_space_split_runs. }
  exists cw, kw. unfold Line.new. by rewrite Hc, Hk.
Qed.

Lemma lines_built (ls : list string) (st : list Line.t * bool) :
  Forall built st.1 → Forall built (foldl Script.line_step st ls).1.
Proof.
  revert st. induction ls as [|l ls IH]; intros st Hst; [done|].
  cbn [foldl]. by apply IH, line_step_built.
Qed.

Lemma lines_count (ls : list string) (st : list Line.t * bool) :
  length (foldl Script.line_step st ls).1 = length st.1 + length ls.
Proof.
  revert st. induction ls as [|l ls IH]; intros st; cbn [foldl length]; [lia|].
  rewrite IH. unfold Script.line_step. cbn [fst]. rewrite length_app. cbn. lia.
Qed.

(** X11: the constructor makes one line for every piece of the text
    between line breaks; the code and the comment of a line are words
    without a space inside, each followed by one space, and splitting the
    comment at spaces, as [getTags] and [tagLines] do, gives these words
    back followed by one empty piece. *)
Theorem new_keeps_words (text : string) :
  length (Script.lines (Script.new text))
  = length (JsString.split JsString.is_newline text)
  ∧ Forall (λ line,
       ∃ cw kw,
         Forall (λ w, is_word w = true) cw ∧ Forall (λ w, is_word w = true) kw
         ∧ line = Line.mk (spaced cw) (spaced kw) []
         ∧ JsString.split JsString.is_space (Line.comment line) = kw ++ [""])
      (Script.lines (Script.new text)).
Proof.
  unfold Script.new. cbn [Script.lines]. split; [by rewrite lines_count|].
  eapply Forall_impl; [apply lines_built; by constructor|].
  intros line (cw & kw & Hcw & Hkw & ->). exists cw, kw.
  repeat (split; [done|]). cbn [Line.comment]. by apply split_spaced.
Qed.

(** ** [measureTags]: measuring again *)

Section Remeasure.

Variable minify : string → option string.
Variable format : string → option string.
Variable s0 : Script.t.

(** While only sizes differ from [s0], an iteration reads what it would
    read of [s0]. *)
Lemma measureTags_step_from_start (s : Script.t) (con : Console) (tag : nat) :
  sizes_only s0 s →
  Script.measureTags_step minify format (s, con) tag
  = (incl ← Tag.dependencies (Script.tags s0) true tag;
     oi ← Script.compile minify format s0
             (Script.namesOf (Script.tags s0) incl.1) true false;
     excl ← Tag.dependencies (Script.tags s0) false tag;
     oe ← Script.compile minify format s0
             (Script.namesOf (Script.tags s0) excl.1) true false;
     Some (Script.mk (Script.lines s)
             (alter (Script.set_size (Z.of_nat (String.length oi)
                                      - Z.of_nat (String.length oe))%Z)
                tag (Script.tags s)),
           con ++ incl.2 ++ excl.2)).
Proof.
  intros Hs. pose proof (sizes_only_same_graph s0 s Hs) as Hg.
  unfold Script.measureTags_step. cbn [fst snd].
  rewrite <- !(same_graph_dependencies _ _ Hg).
  destruct (Tag.dependencies (Script.tags s0) true tag) as [[i ci]|]; [|done].
  cbn -[Script.compile Tag.dependencies Script.namesOf].
  rewrite (compile_sizes_only minify format s0 s i true false Hs).
  destruct (Script.compile minify format s0 _ true false) as [oi|]; [|done].
  cbn -[Script.compile Tag.dependencies Script.namesOf].
  destruct (Tag.dependencies (Script.tags s0) false tag) as [[e ce]|]; [|done].
  cbn -[Script.compile Tag.dependencies Script.namesOf].
  by rewrite (compile_sizes_only minify format s0 s e true false Hs).
Qed.

Lemma measureTags_step_settled (s s1 t : Script.t) (con con1 : Console)
    (tag : nat) :
  sizes_only s0 s → sizes_only s0 t → sized minify format s0 t tag →
  Script.measureTags_step minify format (s, con) tag = Some (s1, con1) →
  Script.measureTags_step minify format (t, con) tag = Some (t, con1).
Proof.
  intros Hs Ht Hsized. rewrite !measureTags_step_from_start by done.
  unfold sized, measured in Hsized.
  destruct (Tag.dependencies (Script.tags s0) true tag) as [i|]; [|done].
  cbn -[Script.compile Tag.dependencies Script.namesOf] in *.
  destruct (Script.compile minify format s0 _ true false) as [oi|]; [|done].
  cbn -[Script.compile Tag.dependencies Script.namesOf] in *.
  destruct (Tag.dependencies (Script.tags s0) false tag) as [e|]; [|done].
  cbn -[Script.compile Tag.dependencies Script.namesOf] in *.
  destruct (Script.compile minify format s0 _ true false) as [oe|]; [|done].
  cbn in *. intros [= _ <-]. f_equal. f_equal.
  destruct Ht as [_ Hr]. destruct t as [lt tt]. cbn in *. f_equal.
  apply list_eq. intros j. destruct (decide (tag = j)) as [<-|Hne];
    [|by rewrite list_lookup_alter_ne].
  rewrite list_lookup_alter_eq.
  destruct (Script.tags s0 !! tag) as [tg0|] eqn:H0.
  - destruct (Hsized tg0 eq_refl) as (z & [= <-] & ->). done.
  - apply lookup_ge_None in H0. rewrite (Forall2_length _ _ _ Hr) in H0.
    apply lookup_ge_None in H0. by rewrite H0.
Qed.

Lemma measureTags_loop_settled (refs : list nat) (s s' t : Script.t)
    (con con' : Console) :
  sizes_only s0 s → sizes_only s0 t →
  (∀ i, i ∈ refs → sized minify format s0 t i) →
  Script.measureTags_loop minify format refs (s, con) = Some (s', con') →
  Script.measureTags_loop minify format refs (t, con) = Some (t, con').
Proof.
  revert s con. induction refs as [|tag refs IH]; intros s con Hs Ht Hall Hloop.
  - cbn in *. by injection Hloop as _ <-.
  - cbn [Script.measureTags_loop] in *.
    destruct (Script.measureTags_step minify format (s, con) tag)
      as [[s1 con1]|] eqn:Hstep; [|done]. cbn in Hloop.
    rewrite (measureTags_step_settled s s1 t con con1 tag Hs Ht);
      [|by apply Hall; left|done].
    destruct (measureTags_step_spec minify format s0 _ _ _ _ _ Hs Hstep)
      as [Hs1 _].
    cbn. apply (IH s1 con1); [done|done| |done].
    intros i Hi. apply Hall. by right.
Qed.

End Remeasure.

(** X12: [measureTags] changes sizes only, and the sizes it computes do not
    depend on the sizes the tags held: measuring the measured script once
    more changes nothing and writes the same warnings. *)
Theorem measureTags_again
    (minify format : string → option string) (s s1 : Script.t) (con : Console) :
  Script.measureTags minify format s = Some (s1, con) →
  Script.lines s1 = Script.lines s
  ∧ Forall2 resized (Script.tags s) (Script.tags s1)
  ∧ Script.measureTags minify format s1 = Some (s1, con).
Proof.
  intros Hm. unfold Script.measureTags in *.
  destruct (measureTags_loop_spec minify format s _ _ _ _ _
              (sizes_only_start s) Hm) as (Hs1 & Hsized & _).
  destruct Hs1 as [Hl Hr]. split; [done|]. split; [done|].
  rewrite <- (Forall2_length _ _ _ Hr).
  apply (measureTags_loop_settled minify format s _ s s1 s1 [] con);
    [apply sizes_only_start|done|done|done].
Qed.

(** The example with one tag, the minifier dropping white space. *)
Lemma measureTags_again_witness :
  Script.measureTags (λ x, Some (strip_blanks x)) Some
    (Script.mk (Script.lines (prepared text_one_tag))
       [Tag.mk (Some "A") "first" 4 [] ""])
  = Some (Script.mk (Script.lines (prepared text_one_tag))
            [Tag.mk (Some "A") "first" 4 [] ""], []).
Proof.
  apply (measureTags_again (λ x, Some (strip_blanks x)) Some
           (prepared text_one_tag)).
  reflexivity.
Defined.

(** ** [loadExternal]: the fetches and the promise *)

Lemma executor_awaits (registry : list Tag.t) (lines : list Line.t) (n : nat) :
  let st := foldl (Script.loadExternal_step registry)
              (Script.mkLoading lines 0 false [] []) (seq 0 n) in
  Script.awaiting st
  = filter (λ r, JsString.truthy (Script.linkOf registry r) = true) (seq 0 n)
  ∧ Script.ld_lines st = lines
  ∧ Script.ld_console st = [].
Proof.
  induction n as [|n IH]; [done|]. cbn zeta in *.
  rewrite seq_S, foldl_snoc, filter_app. destruct IH as (Ha & Hl & Hc).
  unfold Script.loadExternal_step at 1 3 5. cbn [plus].
  rewrite filter_cons, filter_nil.
  destruct (JsString.truthy (Script.linkOf registry n)) eqn:Hlink; cbn [negb].
  - rewrite decide_True by done. cbn. by rewrite Ha.
  - rewrite decide_False by done. cbn. by rewrite Ha, app_nil_r.
Qed.

Lemma settles_many_grows (registry : list Tag.t) (st st' : Script.Loading) :
  Script.settles_many registry st st' →
  Script.ld_lines st `prefix_of` Script.ld_lines st'
  ∧ Script.ld_console st `prefix_of` Script.ld_console st'
  ∧ ∀ r, r ∈ Script.awaiting st' → r ∈ Script.awaiting st.
Proof.
  induction 1 as [|st1 st2 st3 Hstep _ (IHl & IHc & IHa)]; [done|].
  destruct Hstep as [st tag o Htag].
  assert (Script.ld_lines st
            `prefix_of` Script.ld_lines (Script.settle registry st tag o)
          ∧ Script.ld_console st
              `prefix_of` Script.ld_console (Script.settle registry st tag o)
          ∧ ∀ r, r ∈ Script.awaiting (Script.settle registry st tag o) →
                 r ∈ Script.awaiting st) as (Hl & Hc & Ha).
  { unfold Script.settle. destruct o; cbn; (split; [|split]);
      try done; try (by apply prefix_app_r);
      try (intros r [_ Hr]%list_elem_of_filter; done).
    rewrite <- app_assoc. by apply prefix_app_r. }
  split; [by etrans|]. split; [by etrans|]. intros r Hr. by apply Ha, IHa.
Qed.

(** X13: [loadExternal] starts a fetch for exactly the tags that have a
    link, in the order of the registry, and touches neither the lines nor
    the console before a fetch settles; afterwards lines are only added
    at the end, and no fetch is awaited that was not started. *)
Theorem loadExternal_fetches_linked_tags (s : Script.t) :
  Script.awaiting (Script.loadExternal s)
  = filter (λ r, JsString.truthy (Script.linkOf (Script.tags s) r) = true)
      (seq 0 (length (Script.tags s)))
  ∧ Script.ld_lines (Script.loadExternal s) = Script.lines s
  ∧ Script.ld_console (Script.loadExternal s) = []
  ∧ ∀ st, Script.settles_many (Script.tags s) (Script.loadExternal s) st →
      Script.lines s `prefix_of` Script.ld_lines st
      ∧ ∀ r, r ∈ Script.awaiting st →
          r < length (Script.tags s)
          ∧ JsString.truthy (Script.linkOf (Script.tags s) r) = true.
Proof.
  destruct (executor_awaits (Script.tags s) (Script.lines s)
              (length (Script.tags s))) as (Ha & Hl & Hc).
  fold (Script.loadExternal s) in Ha, Hl, Hc.
  split; [done|]. split; [done|]. split; [done|]. intros st Hmany.
  apply settles_many_grows in Hmany as (Hlines & _ & Hawait).
  rewrite Hl in Hlines. split; [done|]. intros r Hr%Hawait.
  rewrite Ha in Hr. apply list_elem_of_filter in Hr as [Hlink Hr].
  apply elem_of_seq in Hr. split; [lia|done].
Qed.

Lemma settle_each_any_order (registry : list Tag.t)
    (o : nat → Script.Outcome) (order : list nat) (st : Script.Loading) :
  NoDup order →
  (∀ r, r ∈ order → r ∈ Script.awaiting st) →
  Script.settles_many registry st (settle_each registry o st order)
  ∧ ∀ r, r ∈ Script.awaiting (settle_each registry o st order)
         ↔ r ∈ Script.awaiting st ∧ r ∉ order.
Proof.
  intros Hnd. revert st.
  induction Hnd as [|tag order Htag Hnd IH]; intros st Hsub.
  - split; [constructor|]. intros r. cbn. rewrite elem_of_nil. tauto.
  - cbn [settle_each foldl].
    assert (∀ r, r ∈ Script.awaiting (Script.settle registry st tag (o tag))
                 ↔ r ∈ Script.awaiting st ∧ r ≠ tag) as Hrest.
    { intros r. unfold Script.settle. destruct (o tag); cbn;
        rewrite list_elem_of_filter; tauto. }
    destruct (IH (Script.settle registry st tag (o tag))) as [Hmany Hleft].
    { intros r Hr. apply Hrest. split; [apply Hsub; by right|].
      intros ->. done. }
    split.
    + eapply Script.settles_more; [|exact Hmany].
      constructor. apply Hsub. by left.
    + intros r. fold (settle_each registry o
                        (Script.settle registry st tag (o tag)) order).
      rewrite Hleft, Hrest, not_elem_of_cons. tauto.
Qed.

(** X14: for a script with at least one tag the promise of [loadExternal]
    is resolved exactly in the states where no fetch is outstanding,
    whatever the order and the outcomes of the fetches so far; and for
    every assignment of outcomes to the fetches and every order in which
    the outstanding fetches settle, the callbacks run one fetch after the
    other and the promise is resolved when the last one has run. *)
Theorem loadExternal_resolves_once_all_settled (s : Script.t) :
  0 < length (Script.tags s) →
  (∀ st, Script.settles_many (Script.tags s) (Script.loadExternal s) st →
     (Script.resolved st = true ↔ Script.awaiting st = []))
  ∧ ∀ (o : nat → Script.Outcome) (order : list nat),
      order ≡ₚ Script.awaiting (Script.loadExternal s) →
      Script.settles_many (Script.tags s) (Script.loadExternal s)
        (settle_each (Script.tags s) o (Script.loadExternal s) order)
      ∧ Script.awaiting
          (settle_each (Script.tags s) o (Script.loadExternal s) order) = []
      ∧ Script.resolved
          (settle_each (Script.tags s) o (Script.loadExternal s) order) = true.
Proof.
  intros Htags.
  assert (∀ st, Script.settles_many (Script.tags s) (Script.loadExternal s) st →
            (Script.resolved st = true ↔ Script.awaiting st = [])) as Hiff.
  { intros st Hmany.
    rewrite (loadExternal_resolved_iff_settled s st Hmany). tauto. }
  split; [exact Hiff|]. intros o order Horder.
  pose proof (executor_counted (Script.tags s) (Script.lines s)
                (length (Script.tags s))) as (_ & Hnd & _).
  fold (Script.loadExternal s) in Hnd.
  destruct (settle_each_any_order (Script.tags s) o order
              (Script.loadExternal s)) as [Hmany Hleft].
  { by rewrite Horder. }
  { intros r Hr. by rewrite <- Horder. }
  assert (Script.awaiting
            (settle_each (Script.tags s) o (Script.loadExternal s) order) = [])
    as Hnil.
  { apply elem_of_nil_inv. intros r [Hr Hnot]%Hleft.
    apply Hnot. by rewrite Horder. }
  split; [done|]. split; [done|]. by apply Hiff.
Qed.

(** Three tags, the last two with a link; the fetch for the third settles
    first and fails, the one for the second is fulfilled. *)
Lemma loadExternal_resolves_once_all_settled_witness :
  let s := Script.mk [Line.new "x(); " ""]
             [Tag.new (Some "A"); Tag.mk (Some "B") "" 0 [] "b.js";
              Tag.mk (Some "C") "" 0 [] "c.js"] in
  let o r :=
    if bool_decide (r = 1) then Script.Fulfilled "f();"
    else Script.Rejected "404" in
  Script.settles_many (Script.tags s) (Script.loadExternal s)
    (settle_each (Script.tags s) o (Script.loadExternal s) [2; 1])
  ∧ Script.awaiting
      (settle_each (Script.tags s) o (Script.loadExternal s) [2; 1]) = []
  ∧ Script.resolved
      (settle_each (Script.tags s) o (Script.loadExternal s) [2; 1]) = true.
Proof.
  apply (loadExternal_resolves_once_all_settled
           (Script.mk [Line.new "x(); " ""]
              [Tag.new (Some "A"); Tag.mk (Some "B") "" 0 [] "b.js";
               Tag.mk (Some "C") "" 0 [] "c.js"])).
  - cbn. lia.
  - apply Permutation_swap.
Defined.

(** ** [addLoadEvent]: the handlers of the load event *)

Lemma fire_addLoadEvent {Page : Type} (onload : option (Page → option Page))
    (event : Page → option Page) (page : Page) :
  fire Page (addLoadEvent Page onload event) page
  = fire Page onload page ≫= event.
Proof. by destruct onload. Qed.

(** X15: [addLoadEvent] keeps what was registered before: at the load of
    the page the handlers run in the order of their registration, after
    the handler [onload] held at first, each on the page the one before
    left, and none runs after one that throws. *)
Theorem addLoadEvent_runs_in_order {Page : Type}
    (onload : option (Page → option Page))
    (events : list (Page → option Page)) (page : Page) :
  fire Page (foldl (addLoadEvent Page) onload events) page
  = foldl (λ result event, result ≫= event) (fire Page onload page) events.
Proof.
  revert onload. induction events as [|event events IH]; intros onload; [done|].
  cbn [foldl]. by rewrite IH, fire_addLoadEvent.
Qed.

(** ** Fetched scripts: from [loadExternal] through [tagLines] to [compile] *)

Lemma split_runs_one (w : string) :
  no_space w = true → JsString.split_runs JsString.is_space false w = [w].
Proof.
  induction w as [|c w IH]; [done|]. cbn. intros [Hc Hw]%andb_prop.
  apply negb_true_iff in Hc. by rewrite Hc, IH.
Qed.

Lemma split_runs_spaced_last (in_run : bool) (ws : list string) (w : string) :
  Forall (λ w, is_word w = true) ws → is_word w = true →
  JsString.split_runs JsString.is_space in_run (spaced ws +:+ w) = ws ++ [w].
Proof.
  intros Hws Hw. revert in_run.
  induction Hws as [|x ws Hx Hws IH]; intros in_run.
  - change (spaced [] +:+ w) with w.
    assert (JsString.split_runs JsString.is_space false w = [w]) as H.
    { apply split_runs_one. unfold is_word in Hw.
      by apply andb_prop in Hw as [_ ?]. }
    destruct in_run; [|done].
    rewrite <- (app_empty_r w) at 1. rewrite split_runs_after_run by done.
    by rewrite app_empty_r.
  - cbn [spaced]. rewrite !app_assoc'.
    assert (JsString.split_runs JsString.is_space false
              (x +:+ " " +:+ spaced ws +:+ w) = (x :: ws) ++ [w]) as H.
    { change (" " +:+ spaced ws +:+ w) with (String " " (spaced ws +:+ w)).
      rewrite split_runs_word; [by rewrite IH|].
      unfold is_word in Hx. by apply andb_prop in Hx as [_ ?]. }
    destruct in_run; [|done]. by rewrite split_runs_after_run.
Qed.

(** The words of a marker line. *)
Lemma split_marker (p n : string) :
  is_word p = true → is_word n = true →
  JsString.split JsString.is_space ("UTAGSET " +:+ p +:+ " " +:+ n)
  = ["UTAGSET"; p; n].
Proof.
  intros Hp Hn.
  assert ("UTAGSET " +:+ p +:+ " " +:+ n = spaced ["UTAGSET"; p] +:+ n) as ->.
  { cbn [spaced]. by rewrite !app_assoc'. }
  apply (split_runs_spaced_last false ["UTAGSET"; p] n); [|done].
  by repeat constructor.
Qed.

Section Spliced.

Variable registry : list Tag.t.

Lemma tagLines_plain_lines (ls : list Line.t) (st : Script.TagState) :
  Forall sets_no_tag ls →
  foldl (Script.tagLines_step registry) st ls
  = Script.mkTagState
      (Script.visited st ++ (Script.attach (Script.multilineTags st) <$> ls))
      (Script.multilineTags st) (Script.tl_console st).
Proof.
  intros Hls. revert st. induction Hls as [|l ls Hl _ IH]; intros st.
  - cbn. rewrite app_nil_r. by destruct st.
  - cbn [foldl]. rewrite IH, (tagLines_step_plain registry st l Hl). cbn.
    by rewrite <- app_assoc.
Qed.

Lemma tagLines_spliced (st : Script.TagState) (n : string) (t : nat)
    (script : string) :
  Tag.find registry (Some n) = Some t → is_word n = true →
  Forall sets_no_tag (Script.lines (Script.new script)) →
  Script.multilineTags st = [] →
  foldl (Script.tagLines_step registry) st (spliced n script)
  = Script.mkTagState
      (Script.visited st
       ++ (Script.attach [LineTag.mk t ModeUndefined] <$> spliced n script))
      [] (Script.tl_console st).
Proof.
  intros Hfind Hn Hbody Hclosed. unfold spliced.
  rewrite !foldl_app, !fmap_app. cbn [foldl list_fmap fmap].
  pose proof (split_marker "START" n eq_refl Hn
              : JsString.split JsString.is_space ("UTAGSET START " +:+ n)
                = ["UTAGSET"; "START"; n]) as Hstart.
  pose proof (split_marker "END" n eq_refl Hn
              : JsString.split JsString.is_space ("UTAGSET END " +:+ n)
                = ["UTAGSET"; "END"; n]) as Hend.
  rewrite (tagLines_step_START registry st _ t);
    cbn [Line.new Line.comment]; rewrite ?Hstart; [|done..].
  rewrite tagLines_plain_lines by done.
  cbn [Script.visited Script.multilineTags Script.tl_console].
  rewrite (tagLines_step_END registry _ _ t);
    cbn [Line.new Line.comment]; rewrite ?Hend; [|done..].
  cbn [Script.visited Script.multilineTags Script.tl_console].
  rewrite Hclosed. cbn [app].
  rewrite !filter_cons, !decide_False by (intros H; by apply H).
  rewrite !filter_nil.
  change (LineTag.Mode (["UTAGSET"; "START"; n] !! 3)) with ModeUndefined.
  change (LineTag.Mode (["UTAGSET"; "END"; n] !! 3)) with ModeUndefined.
  f_equal. by rewrite <- !app_assoc.
Qed.

End Spliced.

(** X16: the lines of a fetched script follow the tag that linked it.
    When the fetch for a tag found under its name has been fulfilled with a
    script that sets no tag itself, and no block is open at the end of the
    lines before, [tagLines] gives the two marker lines and every line of
    the fetched script the one association to that tag and leaves no block
    open; [compile] then emits each of these lines exactly when the name of
    the tag is included. *)
Theorem fetched_lines_follow_their_tag
    (registry : list Tag.t) (st : Script.Loading) (t : nat) (n script : string) :
  Tag.find registry (Some n) = Some t →
  is_word n = true →
  Forall sets_no_tag (Script.lines (Script.new script)) →
  Script.multilineTags
    (Script.tagLines_run (Script.mk (Script.ld_lines st) registry)) = [] →
  let st' := Script.settle registry st t (Script.Fulfilled script) in
  let block :=
    Script.attach [LineTag.mk t ModeUndefined] <$> spliced n script in
  Script.lines (Script.tagLines (Script.mk (Script.ld_lines st') registry)).1
  = Script.lines (Script.tagLines (Script.mk (Script.ld_lines st) registry)).1
    ++ block
  ∧ Script.multilineTags
      (Script.tagLines_run (Script.mk (Script.ld_lines st') registry)) = []
  ∧ ∀ names line, line ∈ block →
      Script.includeLine registry names line = includes names (Some n).
Proof.
  intros Hfind Hn Hbody Hclosed st' block.
  pose proof (find_Some registry _ _ Hfind) as [_ Hname].
  assert (Script.tagLines_run (Script.mk (Script.ld_lines st') registry)
          = Script.mkTagState
              (Script.visited
                 (Script.tagLines_run (Script.mk (Script.ld_lines st) registry))
               ++ block) []
              (Script.tl_console
                 (Script.tagLines_run
                    (Script.mk (Script.ld_lines st) registry)))) as Hrun.
  { unfold Script.tagLines_run at 1. cbn [Script.lines Script.tags].
    unfold st'. rewrite (proj1 (settle_lines registry st t _)).
    rewrite Hname. cbn [js_str]. fold (spliced n script).
    rewrite foldl_app.
    by apply (tagLines_spliced registry _ n t script). }
  split; [|split].
  - unfold Script.tagLines. cbn [fst Script.lines]. by rewrite Hrun.
  - by rewrite Hrun.
  - intros names line (l & -> & Hl)%list_elem_of_fmap.
    assert (Line.tags l = []) as Htags.
    { unfold spliced in Hl. rewrite !elem_of_app in Hl.
      destruct Hl as [Hl|[Hl|Hl]].
      - by apply list_elem_of_singleton in Hl as ->.
      - pose proof (lines_built (JsString.split JsString.is_newline script)
                      ([], false) (Forall_nil_2 _)) as Hb.
        eapply Forall_forall in Hb; [|exact Hl].
        by destruct Hb as (cw & kw & _ & _ & ->).
      - by apply list_elem_of_singleton in Hl as ->. }
    unfold Script.includeLine, Script.attach. cbn [Line.tags].
    rewrite Htags. cbn. rewrite Hname. by destruct (includes names (Some n)).
Qed.

(** The tag [B] links a script of one line; the fetch is fulfilled. *)
Lemma fetched_lines_follow_their_tag_witness :
  let registry := [Tag.mk (Some "B") "" 0 [] "b.js"] in
  let st := Script.loadExternal (Script.mk [Line.new "x(); " ""] registry) in
  let st' := Script.settle registry st 0 (Script.Fulfilled "f();") in
  let block :=
    Script.attach [LineTag.mk 0 ModeUndefined] <$> spliced "B" "f();" in
  Script.lines (Script.tagLines (Script.mk (Script.ld_lines st') registry)).1
  = Script.lines (Script.tagLines (Script.mk (Script.ld_lines st) registry)).1
    ++ block
  ∧ Script.multilineTags
      (Script.tagLines_run (Script.mk (Script.ld_lines st') registry)) = []
  ∧ ∀ names line, line ∈ block →
      Script.includeLine registry names line = includes names (Some "B").
Proof.
  apply (fetched_lines_follow_their_tag
           [Tag.mk (Some "B") "" 0 [] "b.js"]
           (Script.loadExternal
              (Script.mk [Line.new "x(); " ""]
                 [Tag.mk (Some "B") "" 0 [] "b.js"]))
           0 "B" "f();").
  - reflexivity.
  - reflexivity.
  - repeat constructor. by vm_compute.
  - reflexivity.
Defined.

(** ** [compile]: including more tags *)

(** X17: including more tags never drops a line: a line emitted for some
    names is emitted for every array that holds these names, whatever the
    modes of its associations. *)
Theorem more_names_keep_lines (registry : list Tag.t)
    (names names' : list jsval) (line : Line.t) :
  (∀ n, n ∈ names → n ∈ names') →
  Script.includeLine registry names line = true →
  Script.includeLine registry names' line = true.
Proof.
  intros Hsub. rewrite !includeLine_as_booleans.
  assert (∀ x, includes names x = true → includes names' x = true) as Hinc.
  { intros x Hx%bool_decide_eq_true. apply bool_decide_eq_true. by apply Hsub. }
  intros [Hall Hex]%andb_prop. apply andb_true_intro. split.
  - apply forallb_forall. intros lt Hlt.
    rewrite forallb_forall in Hall. specialize (Hall lt Hlt).
    destruct (LineTag.is_AND _); [|done]. cbn in *. by apply Hinc.
  - apply existsb_exists. apply existsb_exists in Hex as (lt & Hlt & Hl).
    exists lt. split; [done|]. by apply Hinc.
Qed.

(** A line of a block of [A] that [B] must accompany. *)
Lemma more_names_keep_lines_witness :
  Script.includeLine registry_with_required [Some "B"; Some "A"; Some "Z"]
    (Line.mk "f(); " ""
       [LineTag.mk 0 (LineTag.Mode (Some "OR"));
        LineTag.mk 1 (LineTag.Mode (Some "AND"))])
  = true.
Proof.
  apply (more_names_keep_lines registry_with_required
           [Some "A"; Some "B"] [Some "B"; Some "A"; Some "Z"]).
  - intros n. rewrite !elem_of_cons, !elem_of_nil. tauto.
  - reflexivity.
Defined.
